(** * gradient_descent_investigation.py

    A shallow embedding of [exercises/gradient_descent_investigation.py]:
    the trajectory recorder handed to the gradient-descent solver, the
    unfinished experiment stubs, the data loader, and the optimisation loop
    the script drives. *)

From Stdlib Require Import QArith Qround Qabs.
From stdpp Require Import base option list strings.

Local Open Scope nat_scope.
Local Open Scope stdpp_scope.

(** ** Python outcomes: a state monad with exceptions *)

Inductive exn : Set :=
  | AttributeError
  | KeyError
  | FileNotFoundError
  | NotImplementedError
  | DimensionMismatch
  | Instability
  | InvalidConfiguration.

Inductive result (A : Type) : Type :=
  | Ok (a : A)
  | Raise (e : exn).
Arguments Ok {A} a.
Arguments Raise {A} e.

(** A computation over a mutable state [S]: it returns a value or raises,
    and in both cases leaves a state behind. *)
Definition M (S A : Type) : Type := S -> result A * S.

Definition ret {S A} (a : A) : M S A := fun s => (Ok a, s).

Definition raise {S A} (e : exn) : M S A := fun s => (Raise e, s).

Definition bind {S A B} (c : M S A) (k : A -> M S B) : M S B :=
  fun s =>
    match c s with
    | (Ok a, s') => k a s'
    | (Raise e, s') => (Raise e, s')
    end.

Declare Scope py_scope.
Delimit Scope py_scope with py.
Notation "'do' x <- c ; k" := (bind c (fun x => k))
  (at level 10, x pattern, c at level 100, k at level 200) : py_scope.
Notation "c ;; k" := (bind c (fun _ => k))
  (at level 100, k at level 200, right associativity) : py_scope.

(** [try: c except: pass], as a caller that keeps going would run [c]. *)
Definition try_pass {S A} (c : M S A) : M S unit :=
  fun s => (Ok tt, snd (c s)).

(** ** The Python object store

    The only mutable objects the script shares are Python lists, so the store
    maps a location to the items of the list living there.  Allocation takes
    the next unused location. *)

Definition loc : Set := nat.

(** The values the script and the solver pass around: [None], numbers,
    numpy arrays, and Python lists by reference.  Objects of other classes
    are not modelled. *)
Inductive pyval : Type :=
  | PyNone
  | PyFloat (x : Q)
  | PyArray (a : list Q)      (* a numpy array, by value *)
  | PyRef (l : loc).          (* a reference to a Python list *)

Abbreviation heap := (list (list pyval)).

Definition new_list : M heap loc :=
  fun h => (Ok (length h), h ++ [[]]).

(** [list.append]: the list at [l] grows by one item at its end.  References
    held by a running program always point at an allocated list. *)
Definition list_append (l : loc) (x : pyval) : M heap unit :=
  fun h => (Ok tt, alter (fun items => items ++ [x]) l h).

(** Attribute lookup [v.append]: only a Python list has the method. *)
Definition getattr_append (v : pyval) : M heap (pyval -> M heap unit) :=
  match v with
  | PyRef l => ret (list_append l)
  | PyNone | PyFloat _ | PyArray _ => raise AttributeError
  end.

(** ** get_gd_state_recorder_callback *)

(** The cells of the enclosing scope that the inner function can see. *)
Record closure : Set := { cell_weights : loc; cell_losses : loc }.

(** The keyword parameters of [callback], each defaulting to [None]. *)
Record cb_args : Type := {
  solver : pyval;
  weights : pyval;
  val : pyval;
  grad : pyval;
  t : pyval;
  eta : pyval;
  delta : pyval
}.

Definition no_args : cb_args :=
  {| solver := PyNone; weights := PyNone; val := PyNone; grad := PyNone;
     t := PyNone; eta := PyNone; delta := PyNone |}.

(** In the body the name [weights] is the parameter, which hides the cell of
    the same name; [losses] is the cell and [val] the parameter. *)
Definition callback (env : closure) (a : cb_args) : M heap unit :=
  (do append_w <- getattr_append (weights a);
   append_w (weights a);;
   do append_l <- getattr_append (PyRef (cell_losses env));
   append_l (val a))%py.

Definition get_gd_state_recorder_callback : M heap (closure * loc * loc) :=
  (do w <- new_list;
   do l <- new_list;
   ret ({| cell_weights := w; cell_losses := l |}, w, l))%py.

(** A caller that invokes the recorder once per entry of [calls] and carries
    on after a failed call. *)
Fixpoint invoke_all (env : closure) (calls : list cb_args) : M heap unit :=
  match calls with
  | [] => ret tt
  | a :: rest => (try_pass (callback env a);; invoke_all env rest)%py
  end.

(** What the solver hands over as [weights]: nothing, or a numpy array. *)
Definition solver_weights (w : option (list Q)) : pyval :=
  match w with
  | None => PyNone
  | Some a => PyArray a
  end.

Definition solver_call (wv : option (list Q) * Q) : cb_args :=
  {| solver := PyNone; weights := solver_weights (fst wv);
     val := PyFloat (snd wv); grad := PyNone; t := PyNone; eta := PyNone;
     delta := PyNone |}.

(** The recording the docstring promises: one call leaves [w] at the end of
    the weights list and [v] at the end of the losses list. *)
Definition records (ws ls : loc) (w v : pyval) (h h' : heap) : Prop :=
  h' !! ws = (fun items => items ++ [w]) <$> h !! ws /\
  h' !! ls = (fun items => items ++ [v]) <$> h !! ls.

(** ** compare_exponential_decay_rates *)

(** The body is three [raise] statements in a row; the arguments are never
    looked at.  The state [S] stands for everything a run could touch. *)
Definition compare_exponential_decay_rates {S : Type}
    (init : list Q) (eta : Q) (gammas : list Q) : M S unit :=
  ((raise NotImplementedError : M S unit);;
   (raise NotImplementedError : M S unit);;
   raise NotImplementedError)%py.

(** ** Tables: the part of pandas that [load_data] uses *)

Inductive cell : Type :=
  | CStr (s : string)
  | CInt (n : Z)
  | CFloat (x : Q)
  | CNaN.

(** A series is a column of cells; a frame is its columns in order, each
    under its label. *)
Abbreviation Series := (list cell).
Abbreviation DataFrame := (list (string * list cell)).

Definition labels (df : DataFrame) : list string := fst <$> df.

(** The column under [name]: the first one carrying that label. *)
Fixpoint column (df : DataFrame) (name : string) : option Series :=
  match df with
  | [] => None
  | (lbl, col) :: rest =>
      if decide (lbl = name) then Some col else column rest name
  end.

(** [df.name] read as an attribute. *)
Definition getattr_column {S} (df : DataFrame) (name : string) : M S Series :=
  match column df name with
  | Some col => ret col
  | None => raise AttributeError
  end.

(** [df.name = col] for a label that is a column: the column is replaced
    where it stands. *)
Fixpoint setattr_column (df : DataFrame) (name : string) (new : Series)
    : DataFrame :=
  match df with
  | [] => []
  | (lbl, col) :: rest =>
      if decide (lbl = name) then (lbl, new) :: rest
      else (lbl, col) :: setattr_column rest name new
  end.

(** [series == s], cell by cell: only a string cell can be equal. *)
Definition eq_str (s : string) (c : cell) : bool :=
  match c with
  | CStr s' => bool_decide (s' = s)
  | CInt _ | CFloat _ | CNaN => false
  end.

(** [.astype(int)] on a boolean. *)
Definition astype_int (b : bool) : cell := CInt (if b then 1 else 0).

(** [df.drop(names, axis=1)]: every label must be found; the columns under
    the labels are left out. *)
Definition drop_columns {S} (df : DataFrame) (names : list string)
    : M S DataFrame :=
  if forallb (fun n => bool_decide (n ∈ labels df)) names
  then ret (filter (fun c => fst c ∉ names) df)
  else raise KeyError.

(** Row selection by position, as a split of a table performs it. *)
Definition take_rows (idx : list nat) (col : Series) : Series :=
  omap (fun i => col !! i) idx.

Definition select_rows (idx : list nat) (df : DataFrame) : DataFrame :=
  (fun c => (fst c, take_rows idx (snd c))) <$> df.

(** ** load_data *)

Section LoadData.
(** [world] is what reading a file and drawing a random split depend on and
    change; [pd.read_csv] belongs to pandas and [split_train_test] to
    [IMLearn.utils], so both are taken as given. *)
Context {world : Type}.
Variable read_csv : string -> M world DataFrame.
Variable split_train_test :
  DataFrame -> Series -> Q ->
  M world (DataFrame * Series * DataFrame * Series).

Definition load_data (path : string) (train_portion : Q)
    : M world (DataFrame * Series * DataFrame * Series) :=
  (do df <- read_csv path;
   do famhist <- getattr_column df "famhist";
   let df := setattr_column df "famhist"
               ((fun c => astype_int (eq_str "Present" c)) <$> famhist) in
   do X <- drop_columns df ["chd"; "row.names"];
   do chd <- getattr_column df "chd";
   split_train_test X chd train_portion)%py.
End LoadData.

(** Modelled from the spec: [split_train_test] of [IMLearn.utils] is not
    among the sources.  The spec has it return a randomized train/test split
    by a configurable proportion; the docstring of [load_data] gives the
    train part ceil(portion * n_samples) rows.  The random order of the rows
    is the state the generator is in. *)
Definition split_train_test_model (X : DataFrame) (y : Series) (portion : Q)
    : M (list nat) (DataFrame * Series * DataFrame * Series) :=
  fun order =>
    let n := Z.to_nat (Qceiling (portion * inject_Z (Z.of_nat (length y)))) in
    let train := take n order in
    let test := drop n order in
    (Ok (select_rows train X, take_rows train y,
         select_rows test X, take_rows test y), order).

(** A split works row-wise when both parts are rows picked from the table
    and the same rows picked from the responses. *)
Definition row_wise {world : Type}
    (split : DataFrame -> Series -> Q ->
             M world (DataFrame * Series * DataFrame * Series)) : Prop :=
  forall X y p s r s',
    split X y p s = (Ok r, s') ->
    exists train test,
      r = (select_rows train X, take_rows train y,
           select_rows test X, take_rows test y).

(** A directory of tables standing for the files [pd.read_csv] can open. *)
Definition read_csv_in {S} (files : list (string * DataFrame)) (path : string)
    : M S DataFrame :=
  match list_find (fun f => fst f = path) files with
  | Some (_, f) => ret (snd f)
  | None => raise FileNotFoundError
  end.

(** The first rows of [SAheart.data], with some of its columns. *)
Definition SAheart_head : DataFrame :=
  [("row.names", [CInt 1; CInt 2; CInt 3; CInt 4]);
   ("sbp", [CInt 160; CInt 144; CInt 118; CInt 170]);
   ("famhist", [CStr "Present"; CStr "Absent"; CStr "Present";
                CStr "Present"]);
   ("age", [CInt 52; CInt 63; CInt 46; CInt 58]);
   ("chd", [CInt 1; CInt 1; CInt 0; CInt 1])].

(** ** The optimisation loop

    The solver class [GradientDescent], its step-size policies and its
    objective modules live in the [IMLearn] package, outside this script.
    What follows renders the loop as the specification lays it out; reals
    are rationals kept in lowest terms. *)

Abbreviation vec := (list Q).

(** Modelled from the spec: the modules of [IMLearn.desent_methods] are not
    among the sources.  An objective maps a parameter vector to a scalar
    value and to a gradient; [None] is a value or gradient that is not
    finite. *)
Record objective : Type := {
  value : vec -> option Q;
  gradient : vec -> option vec
}.

(** Modelled from the spec: the step-size policies [FixedLR] and
    [ExponentialLR], absent from the sources: a constant rate, and a base
    rate decaying by a fixed factor per iteration. *)
Definition FixedLR (base : Q) : nat -> Q := fun _ => base.

Definition ExponentialLR (base gamma : Q) : nat -> Q :=
  fun i => Qred (base * gamma ^ Z.of_nat i)%Q.

(** Modelled from the spec: the output-selection policy of the absent
    solver, one of [last] and [best]. *)
Inductive out_type : Set := Last | Best.

(** Modelled from the spec: the inputs of the absent solver: step-size
    policy, maximum iteration count, convergence tolerance, output policy. *)
Record config : Type := {
  learning_rate : nat -> Q;
  max_iter : Z;
  tol : Q;
  out : out_type
}.

(** Modelled from the spec: an entry of the trajectory record: iteration
    index, parameter snapshot, objective value, gradient norm. *)
Record iterate : Type := {
  it_index : nat;
  it_weights : vec;
  it_value : Q;
  it_grad_norm : Q
}.

(** Modelled from the spec: what the observer is invoked with: iteration
    index, weights, objective value, gradient, step size. *)
Record step_info : Type := {
  at_t : nat;
  at_weights : vec;
  at_val : Q;
  at_grad : vec;
  at_eta : Q
}.

(** Modelled from the spec: what the absent solver carries from one
    iteration to the next. *)
Record loop_state : Type := {
  iter : nat;                 (* iterations completed *)
  cur : vec;                  (* current weights *)
  traj : list iterate         (* trajectory so far, oldest first *)
}.

(** Modelled from the spec: the two ways the loop ends without an error. *)
Inductive stop_reason : Set := MaxIterations | Converged.

(** Modelled from the spec: the output of the absent solver: the selected
    parameter vector and the trajectory record. *)
Record gd_result : Type := {
  solution : vec;
  trajectory : list iterate;
  stopped_by : stop_reason
}.

Definition Qltb (x y : Q) : bool := negb (Qle_bool y x).

(** Modelled from the spec: the update of the absent solver,
    new_weights = current_weights - step_size * gradient. *)
Definition descend (w : vec) (rate : Q) (g : vec) : vec :=
  zip_with (fun wi gi => Qred (wi - rate * gi)%Q) w g.

Definition difference (a b : vec) : vec :=
  zip_with (fun x y => Qred (x - y)%Q) a b.

(** Modelled from the spec: the iterate of lowest recorded objective value;
    among equals the earliest. *)
Definition lower (b : option iterate) (r : iterate) : option iterate :=
  match b with
  | None => Some r
  | Some b0 => if Qltb (it_value r) (it_value b0) then Some r else Some b0
  end.

Definition best_iterate (tr : list iterate) : option iterate :=
  foldl lower None tr.

(** [b] is an entry of [seen] whose value none of the entries undercuts. *)
Definition is_min (b : iterate) (seen : list iterate) : Prop :=
  b ∈ seen /\ forall r, r ∈ seen -> (it_value b <= it_value r)%Q.

(** Modelled from the spec: the result chosen by the output policy: the
    final iterate, or the recorded iterate of lowest objective value. *)
Definition select (o : out_type) (st : loop_state) : vec :=
  match o with
  | Last => cur st
  | Best => default (cur st) (it_weights <$> best_iterate (traj st))
  end.

Section GradientDescent.
(** [St] is the state the observer works on.  The spec leaves the norm open,
    so it is a parameter. *)
Context {St : Type}.
Variable norm : vec -> Q.
Variable f : objective.
Variable cfg : config.
Variable observer : step_info -> M St unit.

(** The state an iteration leaves behind, given the gradient and the value
    it met. *)
Definition advanced (st : loop_state) (g : vec) (v : Q) : loop_state :=
  let w' := descend (cur st) (learning_rate cfg (iter st)) g in
  {| iter := S (iter st); cur := w';
     traj := traj st ++
       [{| it_index := iter st; it_weights := w'; it_value := v;
           it_grad_norm := norm g |}] |}.

(** Every entry of the trajectory carries the objective's value at its
    weights. *)
Definition faithful (tr : list iterate) : Prop :=
  forall r, r ∈ tr -> value f (it_weights r) = Some (it_value r).

(** Modelled from the spec: one iteration of the absent solver.  The
    gradient is taken at the current weights and must have their dimension;
    the step is made; the objective is evaluated at the new weights; a value
    that is not finite stops the run before the observer sees it; the
    observer is invoked once; the iterate is recorded.  The flag tells
    whether the weights moved by less than the tolerance. *)
Definition gd_iteration (st : loop_state) : M St (loop_state * bool) :=
  let w := cur st in
  let rate := learning_rate cfg (iter st) in
  match gradient f w with
  | None => raise Instability
  | Some g =>
      if bool_decide (length g = length w) then
        let w' := descend w rate g in
        match value f w' with
        | None => raise Instability
        | Some v =>
            (observer {| at_t := iter st; at_weights := w'; at_val := v;
                         at_grad := g; at_eta := rate |};;
             ret ({| iter := S (iter st); cur := w';
                     traj := traj st ++
                       [{| it_index := iter st; it_weights := w';
                           it_value := v; it_grad_norm := norm g |}] |},
                  Qltb (norm (difference w' w)) (tol cfg)))%py
        end
      else raise DimensionMismatch
  end.

(** Modelled from the spec: the loop as the linear sequence
    Init, Iterate*, Terminate.  A machine state is either about to run an
    iteration or has terminated, by convergence, by the iteration cap, or by
    an error. *)
Inductive gd_state : Type :=
  | Iterate (st : loop_state) (s : St)
  | Terminate (r : result (loop_state * stop_reason)) (s : St).

Inductive gd_step : gd_state -> gd_state -> Prop :=
  | step_error st s e s' :
      gd_iteration st s = (Raise e, s') ->
      gd_step (Iterate st s) (Terminate (Raise e) s')
  | step_converged st s st' s' :
      gd_iteration st s = (Ok (st', true), s') ->
      gd_step (Iterate st s) (Terminate (Ok (st', Converged)) s')
  | step_max_iterations st s st' s' :
      gd_iteration st s = (Ok (st', false), s') ->
      (max_iter cfg <= Z.of_nat (iter st'))%Z ->
      gd_step (Iterate st s) (Terminate (Ok (st', MaxIterations)) s')
  | step_continue st s st' s' :
      gd_iteration st s = (Ok (st', false), s') ->
      (Z.of_nat (iter st') < max_iter cfg)%Z ->
      gd_step (Iterate st s) (Iterate st' s').

(** Modelled from the spec: exactly [n] steps of the machine. *)
Inductive gd_steps : nat -> gd_state -> gd_state -> Prop :=
  | steps_done m : gd_steps 0 m m
  | steps_next n m1 m2 m3 :
      gd_step m1 m2 -> gd_steps n m2 m3 -> gd_steps (S n) m1 m3.

(** Modelled from the spec: the loop as a program: at most [remaining]
    further iterations, stopping early on convergence or on an error. *)
Fixpoint gd_loop (remaining : nat) (st : loop_state)
    : M St (loop_state * stop_reason) :=
  match remaining with
  | O => ret (st, MaxIterations)
  | S k =>
      (do r <- gd_iteration st;
       if snd r then ret (fst r, Converged) else gd_loop k (fst r))%py
  end.

(** Modelled from the spec: Init, nothing done yet. *)
Definition init_state (w0 : vec) : loop_state :=
  {| iter := 0; cur := w0; traj := [] |}.

(** Modelled from the spec: the solver's entry point.  A configuration with
    a maximum iteration count that is not positive or a negative tolerance
    is rejected before the first iteration. *)
Definition fit (w0 : vec) : M St gd_result :=
  if (max_iter cfg <=? 0)%Z || Qltb (tol cfg) 0%Q then
    raise InvalidConfiguration
  else
    (do r <- gd_loop (Z.to_nat (max_iter cfg)) (init_state w0);
     ret {| solution := select (out cfg) (fst r);
            trajectory := traj (fst r);
            stopped_by := snd r |})%py.
End GradientDescent.

(** Modelled from the spec: the squared L2-norm objective of the absent
    [IMLearn.desent_methods.modules]; its gradient at [w] is [2 w]. *)
Definition L2 : objective :=
  {| value := fun w => Some (Qred (foldr (fun x acc => x * x + acc)%Q 0%Q w));
     gradient := fun w => Some ((fun x => Qred (2 * x)%Q) <$> w) |}.

(** The sum of the absolute values of the entries. *)
Definition norm1 (v : vec) : Q :=
  Qred (foldr (fun x acc => Qabs x + acc)%Q 0%Q v).

(** The weights and the values along the trajectory of a result, which is
    what a recorder that works holds in its two lists after the run. *)
Definition recorded_weights (res : gd_result) : list vec :=
  it_weights <$> trajectory res.

Definition recorded_losses (res : gd_result) : list Q :=
  it_value <$> trajectory res.

(** An observer that ignores what it is shown. *)
Definition no_observer : step_info -> M unit unit := fun _ => ret tt.

(** Handing the iteration over to the recorder the way the solver invokes
    its callback, by keyword. *)
Definition recorder_observer (env : closure) : step_info -> M heap unit :=
  fun i =>
    callback env
      {| solver := PyNone; weights := PyArray (at_weights i);
         val := PyFloat (at_val i); grad := PyArray (at_grad i);
         t := PyFloat (inject_Z (Z.of_nat (at_t i)));
         eta := PyFloat (at_eta i); delta := PyNone |}.

(** The recorder as its docstring describes it: the weights go to one list
    and the value to the other. *)
Definition recording_observer (ws ls : loc) : step_info -> M heap unit :=
  fun i =>
    (list_append ws (PyArray (at_weights i));;
     list_append ls (PyFloat (at_val i)))%py.

(** The solver as [compare_fixed_learning_rates] sets it up: a fixed
    learning rate and output policy ["best"]. *)
Definition fixed_rate_solver (rate : Q) (cap : Z) (tolerance : Q) : config :=
  {| learning_rate := FixedLR rate; max_iter := cap; tol := tolerance;
     out := Best |}.

(** ** The script as a whole

    What the script does besides computing: it seeds the generator, prints,
    and draws.  These are kept as a trace next to the object store. *)

(** The two objective classes the script names. *)
Inductive module_name : Set := ModL1 | ModL2.

Inductive event : Type :=
  | Seeded (n : Z)                                     (* np.random.seed *)
  | Printed (m : module_name) (rate : Q) (lowest : pyval)      (* print *)
  | Plotted (m : module_name) (rate : Q) (series : list pyval) (* plt.plot *)
  | LegendDrawn                                        (* plt.legend *)
  | FigureShown.                                       (* plt.show *)

Record world : Type := { store : heap; trace : list event }.

(** A computation on the store, run inside the world. *)
Definition on_store {A} (c : M heap A) : M world A :=
  fun w =>
    (fst (c (store w)), {| store := snd (c (store w)); trace := trace w |}).

Definition emit (e : event) : M world unit :=
  fun w => (Ok tt, {| store := store w; trace := trace w ++ [e] |}).

(** The items a list holds at the moment it is looked at. *)
Definition read_list (l : loc) : M world (list pyval) :=
  fun w => (Ok (default [] (store w !! l)), w).


Section Script.
(** The solver, its objectives and the drawing of a descent path are not
    part of this file (the classes come from [IMLearn], the surface plot
    from [utils] and plotly), so they are taken as given:
    [solver_fit m rate cb init] stands for building the module [m(init)] and
    [GradientDescent(learning_rate=FixedLR(rate), out_type="best",
    callback=cb)] and calling [fit] on them, and [show_descent_path m path]
    for [plot_descent_path(module=m, descent_path=np.array(path)).show()]. *)
Variable solver_fit : module_name -> Q -> closure -> list Q -> M world pyval.
Variable show_descent_path : module_name -> list pyval -> M world unit.
Variable read_csv : string -> M world DataFrame.
Variable split_train_test :
  DataFrame -> Series -> Q ->
  M world (DataFrame * Series * DataFrame * Series).

(** The body of the [for eta in etas] loop of
    [compare_fixed_learning_rates]. *)
Definition fixed_rate_round (init : list Q) (rate : Q) : M world unit :=
  (do l1 <- on_store get_gd_state_recorder_callback;
   do l2 <- on_store get_gd_state_recorder_callback;
   let '(l1_callback, l1_weights, l1_losses) := l1 in
   let '(l2_callback, l2_weights, l2_losses) := l2 in
   do lowest_loss_l1 <- solver_fit ModL1 rate l1_callback init;
   do lowest_loss_l2 <- solver_fit ModL2 rate l2_callback init;
   emit (Printed ModL1 rate lowest_loss_l1);;
   emit (Printed ModL2 rate lowest_loss_l2);;
   do series1 <- read_list l1_losses;
   emit (Plotted ModL1 rate series1);;
   do series2 <- read_list l2_losses;
   emit (Plotted ModL2 rate series2);;
   if Qeq_bool rate (1 # 100) then
     (do path1 <- read_list l1_weights;
      show_descent_path ModL1 path1;;
      do path2 <- read_list l2_weights;
      show_descent_path ModL2 path2)
   else ret tt)%py.

Fixpoint for_each {A} (items : list A) (body : A -> M world unit)
    : M world unit :=
  match items with
  | [] => ret tt
  | x :: rest => (body x;; for_each rest body)%py
  end.

Definition compare_fixed_learning_rates (init : list Q) (etas : list Q)
    : M world unit :=
  (for_each etas (fixed_rate_round init);;
   emit LegendDrawn;;
   emit FigureShown)%py.

(** [load_data()] with its defaults, then the first [raise]. *)
Definition fit_logistic_regression : M world unit :=
  (do data <- load_data read_csv split_train_test
                "../datasets/SAheart.data" (8 # 10);
   (raise NotImplementedError : M world unit);;
   raise NotImplementedError)%py.

(** The block under [if __name__ == '__main__'].  [init] stands for the
    default start [array([sqrt 2, e / 3])] of both comparisons. *)
Definition main (init : list Q) : M world unit :=
  (emit (Seeded 0);;
   compare_fixed_learning_rates init [1%Q; 1 # 10; 1 # 100; 1 # 1000];;
   compare_exponential_decay_rates init (1 # 10)
     [9 # 10; 95 # 100; 99 # 100; 1%Q];;
   fit_logistic_regression)%py.
End Script.

(** The world once a round has created its two recorders. *)
Definition with_recorders (w : world) : world :=
  {| store := store w ++ [[]; []; []; []]; trace := trace w |}.

(** The recorder a round creates first, for the L1 fit, and the one it
    creates second, for the L2 fit. *)
Definition first_recorder (w : world) : closure :=
  {| cell_weights := length (store w);
     cell_losses := S (length (store w)) |}.

Definition second_recorder (w : world) : closure :=
  {| cell_weights := S (S (length (store w)));
     cell_losses := S (S (S (length (store w)))) |}.

(** A solver that does nothing but invoke its callback once, by keyword,
    on the weights it starts from. *)
Definition calling_solver
    (m : module_name) (rate : Q) (cb : closure) (init : list Q)
    : M world pyval :=
  (on_store (callback cb (solver_call (Some init, 0%Q)));; ret PyNone)%py.

(** A solver and a drawing routine that do nothing at all. *)
Definition idle_solver
    (m : module_name) (rate : Q) (cb : closure) (init : list Q)
    : M world pyval := ret PyNone.

Definition idle_show (m : module_name) (path : list pyval) : M world unit :=
  ret tt.



(** * Properties *)

(** ** Facts about the store *)

Section Store.
Implicit Types (h : heap) (l k : loc) (x : pyval) (env : closure)
  (a : cb_args).

Lemma new_list_spec h : new_list h = (Ok (length h), h ++ [[]]).
Proof. reflexivity. Qed.

Lemma list_append_length l x h :
  length (snd (list_append l x h)) = length h.
Proof. unfold list_append; simpl. apply length_alter. Qed.

Lemma list_append_other l k x h :
  k <> l -> snd (list_append l x h) !! k = h !! k.
Proof.
  intros Hne. unfold list_append; simpl.
  apply list_lookup_alter_ne. congruence.
Qed.

Lemma list_append_here l x h :
  snd (list_append l x h) !! l = (fun items => items ++ [x]) <$> h !! l.
Proof. unfold list_append; simpl. apply list_lookup_alter_eq. Qed.

Lemma get_recorder_spec h :
  get_gd_state_recorder_callback h =
    (Ok ({| cell_weights := length h; cell_losses := S (length h) |},
         length h, S (length h)),
     h ++ [[]; []]).
Proof.
  unfold get_gd_state_recorder_callback, bind, new_list, ret.
  rewrite length_app, <- app_assoc. simpl.
  replace (length h + 1) with (S (length h)) by lia. reflexivity.
Qed.

(** A call whose [weights] is not a Python list stops at the first
    statement. *)
Lemma callback_no_append env a h :
  (forall l, weights a <> PyRef l) ->
  callback env a h = (Raise AttributeError, h).
Proof.
  intros Hw. unfold callback, bind.
  destruct (weights a) as [| |arr|l]; try reflexivity.
  now destruct (Hw l).
Qed.

(** With a Python list as [weights], that list receives itself and the
    losses cell receives [val]. *)
Lemma callback_list env a l h :
  weights a = PyRef l ->
  callback env a h =
    (Ok tt,
     snd (list_append (cell_losses env) (val a)
            (snd (list_append l (PyRef l) h)))).
Proof. intros Hw. unfold callback, bind. rewrite Hw. reflexivity. Qed.

Lemma callback_length env a h : length (snd (callback env a h)) = length h.
Proof.
  destruct (weights a) as [| |arr|l] eqn:Hw.
  1-3: rewrite callback_no_append; [reflexivity | rewrite Hw; discriminate].
  rewrite (callback_list _ _ l) by assumption. cbn [snd].
  now rewrite !list_append_length.
Qed.

(** Frame: a call writes to its losses cell and to the list it was given,
    and nowhere else. *)
Lemma callback_frame env a k h :
  k <> cell_losses env -> weights a <> PyRef k ->
  snd (callback env a h) !! k = h !! k.
Proof.
  intros Hl Hw. destruct (weights a) as [| |arr|l] eqn:Ha.
  1-3: rewrite callback_no_append; [reflexivity | rewrite Ha; discriminate].
  rewrite (callback_list _ _ l) by assumption.
  cbn [snd]. rewrite list_append_other by assumption.
  apply list_append_other. congruence.
Qed.

Lemma invoke_all_length env calls h :
  length (snd (invoke_all env calls h)) = length h.
Proof.
  revert h. induction calls as [|a rest IH]; intros h; [reflexivity|].
  cbn [invoke_all]. unfold bind, try_pass. cbn.
  rewrite IH. apply callback_length.
Qed.

(** Calls made by the solver leave the whole store as it was. *)
Lemma invoke_all_solver env (calls : list (option (list Q) * Q)) h :
  invoke_all env (solver_call <$> calls) h = (Ok tt, h).
Proof.
  revert h. induction calls as [|[w v] rest IH]; intros h; [reflexivity|].
  cbn [fmap list_fmap invoke_all]. unfold bind, try_pass.
  rewrite callback_no_append.
  - cbn. apply IH.
  - destruct w; discriminate.
Qed.
End Store.

(** ** The recorder *)

(** C1 (the code departs from it). The docstring promises that a call
    records the parameters and the objective value.  At the call the solver
    makes, [callback(weights=array([1., 2.]), val=3.)] on a recorder just
    created, the first statement raises [AttributeError], the store is left
    as it was, and neither list has received anything. *)
Theorem callback_array_call_records_nothing :
  exists env ws ls h,
    get_gd_state_recorder_callback [] = (Ok (env, ws, ls), h) /\
    let a := solver_call (Some [1%Q; 2%Q], 3%Q) in
    callback env a h = (Raise AttributeError, h) /\
    h !! ws = Some [] /\ h !! ls = Some [] /\
    ~ records ws ls (weights a) (val a) h (snd (callback env a h)).
Proof.
  do 4 eexists. split; [apply get_recorder_spec|].
  cbn zeta. rewrite callback_no_append by discriminate.
  repeat split. intros [Hw _]. discriminate Hw.
Qed.

(** C2 (the code departs from it). However many calls the solver makes, each
    with [None] or an array as [weights], both accumulators of a fresh
    recorder are still empty afterwards: their length is 0, not the number
    of calls. *)
Theorem solver_calls_leave_accumulators_empty
    (h : heap) (calls : list (option (list Q) * Q)) :
  exists env ws ls h1,
    get_gd_state_recorder_callback h = (Ok (env, ws, ls), h1) /\
    let h2 := snd (invoke_all env (solver_call <$> calls) h1) in
    h2 !! ws = Some [] /\ h2 !! ls = Some [].
Proof.
  do 4 eexists. split; [apply get_recorder_spec|].
  cbn zeta. rewrite invoke_all_solver. cbn [snd]. split.
  - rewrite lookup_app_r by lia. now rewrite Nat.sub_diag.
  - rewrite lookup_app_r by lia.
    now replace (S (length h) - length h) with 1 by lia.
Qed.

(** C3. A call whose [weights] is [None] (the default) or a numpy array
    raises [AttributeError] at its first statement; the store, and with it
    the losses list, is left exactly as it was. *)
Theorem callback_raises_attribute_error
    (env : closure) (a : cb_args) (h : heap) :
  weights a = PyNone \/ (exists arr, weights a = PyArray arr) ->
  callback env a h = (Raise AttributeError, h) /\
  snd (callback env a h) !! cell_losses env = h !! cell_losses env.
Proof.
  intros Hw.
  assert (Hraise : callback env a h = (Raise AttributeError, h)).
  { apply callback_no_append. intros l Hl.
    destruct Hw as [Hn | [arr Harr]]; congruence. }
  split; [exact Hraise | now rewrite Hraise].
Qed.

Lemma callback_raises_attribute_error_witness :
  let env := {| cell_weights := 0; cell_losses := 1 |} in
  (weights no_args = PyNone \/ (exists arr, weights no_args = PyArray arr)) /\
  callback env no_args [[]; [PyFloat 2%Q]] =
    (Raise AttributeError, [[]; [PyFloat 2%Q]]).
Proof.
  split.
  - left; reflexivity.
  - apply (callback_raises_attribute_error _ no_args). left; reflexivity.
Defined.

(** C4. Each call of [get_gd_state_recorder_callback] allocates two lists
    that did not exist before and are empty.  A second call, made after the
    first recorder was used any number of times, gets two further lists,
    distinct from the first pair; it leaves the first pair untouched, and
    its callback writes only to its own losses cell or to a list it is
    handed as an argument. *)
Theorem recorder_accumulators_fresh (h : heap) (calls : list cb_args) :
  exists env1 w1 l1 h1 env2 w2 l2 h3,
    let h2 := snd (invoke_all env1 calls h1) in
    get_gd_state_recorder_callback h = (Ok (env1, w1, l1), h1) /\
    get_gd_state_recorder_callback h2 = (Ok (env2, w2, l2), h3) /\
    (h !! w1 = None /\ h !! l1 = None) /\
    (h1 !! w1 = Some [] /\ h1 !! l1 = Some []) /\
    (h2 !! w2 = None /\ h2 !! l2 = None) /\
    (h3 !! w2 = Some [] /\ h3 !! l2 = Some []) /\
    NoDup [w1; l1; w2; l2] /\
    (h3 !! w1 = h2 !! w1 /\ h3 !! l1 = h2 !! l1) /\
    (cell_losses env1 = l1 /\ cell_losses env2 = l2) /\
    (forall a k, k <> l2 -> weights a <> PyRef k ->
       snd (callback env2 a h3) !! k = h3 !! k).
Proof.
  do 8 eexists. cbn zeta.
  split; [apply get_recorder_spec|].
  split; [apply get_recorder_spec|].
  set (env1 := {| cell_weights := length h; cell_losses := S (length h) |}).
  set (h1 := h ++ [[]; []]).
  set (h2 := snd (invoke_all env1 calls h1)).
  assert (Hlen1 : length h1 = S (S (length h))).
  { unfold h1. rewrite length_app. simpl. lia. }
  assert (Hlen2 : length h2 = S (S (length h))).
  { unfold h2. now rewrite invoke_all_length. }
  repeat split.
  - apply lookup_ge_None. lia.
  - apply lookup_ge_None. lia.
  - unfold h1. rewrite lookup_app_r by lia. now rewrite Nat.sub_diag.
  - unfold h1. rewrite lookup_app_r by lia.
    now replace (S (length h) - length h) with 1 by lia.
  - apply lookup_ge_None. lia.
  - apply lookup_ge_None. lia.
  - rewrite lookup_app_r by lia. now rewrite Nat.sub_diag.
  - rewrite lookup_app_r by lia.
    now replace (S (length h2) - length h2) with 1 by lia.
  - rewrite Hlen2. repeat constructor; rewrite ?list_elem_of_In; simpl; lia.
  - rewrite lookup_app_l by lia. reflexivity.
  - rewrite lookup_app_l by lia. reflexivity.
  - intros a k Hk Hw. apply callback_frame; assumption.
Qed.

(** ** The unfinished experiment *)

(** C5. Whatever the arguments and whatever state the program is in,
    [compare_exponential_decay_rates] raises [NotImplementedError] and the
    state is the one it was called in. *)
Theorem compare_exponential_decay_rates_not_implemented
    (S : Type) (init : list Q) (eta : Q) (gammas : list Q) (s : S) :
  compare_exponential_decay_rates init eta gammas s =
    (Raise NotImplementedError, s).
Proof. unfold compare_exponential_decay_rates, bind, raise. reflexivity. Qed.

(** ** Facts about tables *)

Section Tables.
Implicit Types (df : DataFrame) (name lbl : string) (col new : Series)
  (names : list string).

Lemma column_is_Some df name : is_Some (column df name) <-> name ∈ labels df.
Proof.
  induction df as [|[lbl col] rest IH]; cbn [column labels fmap list_fmap fst].
  - split; [intros [? ?]; discriminate | intros H; inversion H].
  - destruct (decide (lbl = name)) as [->|Hne].
    + split; [intros _; left | intros _; eauto].
    + rewrite IH. split; [intros H; now right|].
      intros H. inversion H; subst; [congruence | assumption].
Qed.

Lemma column_None df name : column df name = None <-> name ∉ labels df.
Proof. rewrite <- column_is_Some, eq_None_not_Some. reflexivity. Qed.

Lemma labels_setattr_column df name new :
  labels (setattr_column df name new) = labels df.
Proof.
  induction df as [|[lbl col] rest IH]; [reflexivity|].
  cbn [setattr_column]. destruct (decide (lbl = name)); [reflexivity|].
  unfold labels in *. cbn. now rewrite IH.
Qed.

Lemma column_setattr_column_eq df name col new :
  column df name = Some col ->
  column (setattr_column df name new) name = Some new.
Proof.
  induction df as [|[lbl c] rest IH]; [discriminate|].
  cbn [column setattr_column].
  destruct (decide (lbl = name)) as [->|Hne]; intros H.
  - cbn [column]. now rewrite decide_True.
  - cbn [column]. rewrite decide_False by assumption. now apply IH.
Qed.

Lemma column_setattr_column_ne df name lbl new :
  lbl <> name ->
  column (setattr_column df name new) lbl = column df lbl.
Proof.
  intros Hne. induction df as [|[l c] rest IH]; [reflexivity|].
  cbn [column setattr_column]. destruct (decide (l = name)) as [->|Hl].
  - cbn [column]. now rewrite !decide_False by congruence.
  - cbn [column]. destruct (decide (l = lbl)); [reflexivity | apply IH].
Qed.

Lemma labels_filter df names :
  labels (filter (fun c => fst c ∉ names) df) =
  filter (fun n => n ∉ names) (labels df).
Proof.
  induction df as [|[lbl c] rest IH]; [reflexivity|].
  unfold labels in *. cbn [fmap list_fmap fst].
  rewrite !filter_cons. cbn [fst].
  destruct (decide (lbl ∉ names)); cbn; now rewrite IH.
Qed.

Lemma column_filter_out df names name :
  name ∈ names -> column (filter (fun c => fst c ∉ names) df) name = None.
Proof.
  intros Hin. apply column_None. rewrite labels_filter.
  rewrite list_elem_of_filter. tauto.
Qed.

Lemma column_filter_keep df names name :
  name ∉ names ->
  column (filter (fun c => fst c ∉ names) df) name = column df name.
Proof.
  intros Hnotin. induction df as [|[lbl c] rest IH]; [reflexivity|].
  rewrite filter_cons. cbn [fst column].
  destruct (decide (lbl ∉ names)) as [Hk|Hd].
  - cbn [column]. destruct (decide (lbl = name)); [reflexivity | apply IH].
  - rewrite IH. rewrite decide_False; [reflexivity|].
    intros ->. contradiction.
Qed.

Lemma labels_select_rows idx df : labels (select_rows idx df) = labels df.
Proof.
  unfold labels, select_rows. rewrite <- list_fmap_compose.
  apply list_fmap_ext. now intros _ [lbl c] _.
Qed.

Lemma column_select_rows idx df name :
  column (select_rows idx df) name = take_rows idx <$> column df name.
Proof.
  induction df as [|[lbl c] rest IH]; [reflexivity|].
  cbn [select_rows fmap list_fmap column fst snd].
  destruct (decide (lbl = name)); [reflexivity | apply IH].
Qed.

Lemma eq_str_true s c : eq_str s c = true <-> c = CStr s.
Proof.
  destruct c as [s'| | |]; cbn [eq_str]; try (split; discriminate).
  rewrite bool_decide_eq_true. split; congruence.
Qed.

Lemma drop_columns_found {S} df names (s : S) :
  (forall n, n ∈ names -> n ∈ labels df) ->
  drop_columns df names s = (Ok (filter (fun c => fst c ∉ names) df), s).
Proof.
  intros Hall. unfold drop_columns.
  replace (forallb _ names) with true; [reflexivity|].
  symmetry. apply forallb_forall. intros n Hn.
  apply bool_decide_eq_true, Hall, list_elem_of_In, Hn.
Qed.

Lemma drop_columns_inv {S} df names (s s' : S) X :
  drop_columns df names s = (Ok X, s') ->
  X = filter (fun c => fst c ∉ names) df /\ s' = s /\
  forall n, n ∈ names -> n ∈ labels df.
Proof.
  unfold drop_columns.
  destruct (forallb _ names) eqn:Hall; [|discriminate].
  intros [= <- <-]. repeat split. intros n Hn.
  rewrite forallb_forall in Hall.
  apply list_elem_of_In, Hall in Hn. now apply bool_decide_eq_true in Hn.
Qed.
End Tables.

(** ** The data loader *)

Lemma split_train_test_model_row_wise : row_wise split_train_test_model.
Proof.
  intros X y p s r s'. unfold split_train_test_model. intros [= <- <-].
  eauto.
Qed.

Section LoadDataFacts.
Context {world : Type}.
Variable read_csv : string -> M world DataFrame.
Variable split_train_test :
  DataFrame -> Series -> Q ->
  M world (DataFrame * Series * DataFrame * Series).

Local Abbreviation load := (load_data read_csv split_train_test).

(** The table as [load_data] has it after the assignment to [df.famhist]. *)
Local Abbreviation recoded df famhist :=
  (setattr_column df "famhist"
     ((fun c => astype_int (eq_str "Present" c)) <$> famhist)).

(** What reaches [split_train_test] when the three columns are there. *)
Lemma load_data_found path p s df s0 famhist chd :
  read_csv path s = (Ok df, s0) ->
  column df "famhist" = Some famhist ->
  column df "chd" = Some chd ->
  "row.names" ∈ labels df ->
  load path p s =
    split_train_test
      (filter (fun c => fst c ∉ ["chd"; "row.names"]) (recoded df famhist))
      chd p s0.
Proof.
  intros Hread Hfam Hchd Hrow.
  unfold load_data, bind at 1. rewrite Hread.
  unfold getattr_column at 1, bind at 1. rewrite Hfam. cbn [ret].
  unfold bind at 1. rewrite drop_columns_found.
  - unfold bind, getattr_column.
    rewrite column_setattr_column_ne by discriminate.
    rewrite Hchd. reflexivity.
  - intros n Hn. rewrite labels_setattr_column.
    apply list_elem_of_In in Hn. destruct Hn as [<-|[<-|[]]]; [|assumption].
    apply column_is_Some. eauto.
Qed.

(** A successful [load_data] went through every step. *)
Lemma load_data_inv path p s r s' :
  load path p s = (Ok r, s') ->
  exists df s0 famhist chd,
    read_csv path s = (Ok df, s0) /\
    column df "famhist" = Some famhist /\
    column df "chd" = Some chd /\
    "row.names" ∈ labels df /\
    split_train_test
      (filter (fun c => fst c ∉ ["chd"; "row.names"]) (recoded df famhist))
      chd p s0 = (Ok r, s').
Proof.
  unfold load_data, bind at 1.
  destruct (read_csv path s) as [[df|e] s0] eqn:Hread; [|discriminate].
  unfold getattr_column at 1, bind at 1.
  destruct (column df "famhist") as [famhist|] eqn:Hfam; [|discriminate].
  cbn [ret]. unfold bind at 1.
  destruct (drop_columns _ _ s0) as [[X|e] s1] eqn:Hdrop; [|discriminate].
  apply drop_columns_inv in Hdrop as (-> & -> & Hlbl).
  unfold bind, getattr_column.
  rewrite column_setattr_column_ne by discriminate.
  destruct (column df "chd") as [chd|] eqn:Hchd; [|discriminate].
  cbn [ret]. intros Hsplit. exists df, s0, famhist, chd.
  repeat split; try assumption.
  rewrite <- (labels_setattr_column df "famhist"
    ((fun c => astype_int (eq_str "Present" c)) <$> famhist)).
  apply Hlbl, list_elem_of_In. simpl; auto.
Qed.

(** C6. When the file holds the columns [famhist], [chd] and [row.names],
    the table handed to [split_train_test] carries a [famhist] column that
    is, row for row, 1 where the loaded value is the string ['Present'] and
    0 where it is anything else. *)
Theorem load_data_recodes_famhist path p s df s0 famhist :
  read_csv path s = (Ok df, s0) ->
  column df "famhist" = Some famhist ->
  "chd" ∈ labels df ->
  "row.names" ∈ labels df ->
  exists X y coded,
    load path p s = split_train_test X y p s0 /\
    column X "famhist" = Some coded /\
    length coded = length famhist /\
    forall i c, famhist !! i = Some c ->
      (c = CStr "Present" -> coded !! i = Some (CInt 1)) /\
      (c <> CStr "Present" -> coded !! i = Some (CInt 0)).
Proof.
  intros Hread Hfam Hchd Hrow.
  apply column_is_Some in Hchd as [chd Hchd].
  eexists _, chd, _. split; [|split; [|split]].
  - eapply load_data_found; eassumption.
  - rewrite column_filter_keep.
    + eapply column_setattr_column_eq, Hfam.
    + intros Hin. apply list_elem_of_In in Hin.
      destruct Hin as [H|[H|[]]]; discriminate H.
  - apply length_fmap.
  - intros i c Hi. rewrite list_lookup_fmap, Hi. cbn [fmap option_fmap option_map].
    split.
    + intros ->. reflexivity.
    + intros Hne. destruct (eq_str "Present" c) eqn:Heq; [|reflexivity].
      apply eq_str_true in Heq. contradiction.
Qed.

(** C7. A successful [load_data] has handed [split_train_test] exactly two
    things: as features the recoded table of the file without its [chd] and
    [row.names] columns, and as response the file's [chd] column, whole and
    unchanged.  When the split works row-wise, the two design matrices it
    returns are rows of that table, so they have neither a [chd] nor a
    [row.names] column and their labels are the other labels of the file in
    order, and the two response series are the entries of the [chd] column
    at the rows of the two matrices. *)
Theorem load_data_features_and_response
    path p s train_X train_y test_X test_y s' :
  row_wise split_train_test ->
  load path p s = (Ok (train_X, train_y, test_X, test_y), s') ->
  exists df s0 famhist chd train test,
    let X := filter (fun c => fst c ∉ ["chd"; "row.names"])
               (recoded df famhist) in
    read_csv path s = (Ok df, s0) /\
    column df "famhist" = Some famhist /\
    column df "chd" = Some chd /\
    load path p s = split_train_test X chd p s0 /\
    (column X "chd" = None /\ column X "row.names" = None) /\
    (train_X = select_rows train X /\ train_y = take_rows train chd) /\
    (test_X = select_rows test X /\ test_y = take_rows test chd) /\
    (column train_X "chd" = None /\ column train_X "row.names" = None) /\
    (column test_X "chd" = None /\ column test_X "row.names" = None) /\
    labels train_X = filter (fun n => n ∉ ["chd"; "row.names"]) (labels df) /\
    labels test_X = filter (fun n => n ∉ ["chd"; "row.names"]) (labels df).
Proof.
  intros Hrows Hload.
  pose proof Hload as Hinv. apply load_data_inv in Hinv
    as (df & s0 & famhist & chd & Hread & Hfam & Hchd & Hrow & Hsplit).
  destruct (Hrows _ _ _ _ _ _ Hsplit) as (train & test & [= -> -> -> ->]).
  exists df, s0, famhist, chd, train, test. cbn zeta.
  split; [exact Hread|]. split; [exact Hfam|]. split; [exact Hchd|].
  split; [now apply load_data_found|].
  rewrite !column_select_rows, !labels_select_rows, !labels_filter,
    !labels_setattr_column.
  rewrite !column_filter_out by (apply list_elem_of_In; simpl; auto).
  repeat split.
Qed.
End LoadDataFacts.

(** ** The lowest recorded value *)

Lemma Qltb_lt x y : Qltb x y = true <-> (x < y)%Q.
Proof.
  unfold Qltb. rewrite negb_true_iff, <- not_true_iff_false, Qle_bool_iff.
  split; [apply Qnot_le_lt | apply Qlt_not_le].
Qed.

Lemma Qltb_ge x y : Qltb x y = false <-> (y <= x)%Q.
Proof. unfold Qltb. rewrite negb_false_iff. apply Qle_bool_iff. Qed.

Lemma lower_is_min b seen r :
  is_min b seen ->
  exists b', lower (Some b) r = Some b' /\ is_min b' (seen ++ [r]).
Proof.
  intros [Hin Hmin]. cbn [lower].
  destruct (Qltb (it_value r) (it_value b)) eqn:Hcmp.
  - exists r. split; [reflexivity|]. apply Qltb_lt in Hcmp. split.
    + apply elem_of_app. right. now left.
    + intros r' [Hr'|Hr']%elem_of_app.
      * eapply Qle_trans; [apply Qlt_le_weak, Hcmp | now apply Hmin].
      * apply list_elem_of_singleton in Hr' as ->. apply Qle_refl.
  - exists b. split; [reflexivity|]. apply Qltb_ge in Hcmp. split.
    + apply elem_of_app. now left.
    + intros r' [Hr'|Hr']%elem_of_app; [now apply Hmin|].
      now apply list_elem_of_singleton in Hr' as ->.
Qed.

Lemma foldl_lower_is_min tr : forall b seen,
  is_min b seen ->
  exists b', foldl lower (Some b) tr = Some b' /\ is_min b' (seen ++ tr).
Proof.
  induction tr as [|r tr IH]; intros b seen Hb.
  - exists b. now rewrite app_nil_r.
  - cbn [foldl].
    destruct (lower_is_min b seen r Hb) as (b1 & -> & Hb1).
    destruct (IH b1 (seen ++ [r]) Hb1) as (b' & Hfold & Hb').
    exists b'. split; [exact Hfold|]. now rewrite <- app_assoc in Hb'.
Qed.

(** A trajectory that is not empty has a best iterate: one of its entries,
    whose value is at most the value of every entry. *)
Lemma best_iterate_is_min r tr :
  exists b, best_iterate (r :: tr) = Some b /\ is_min b (r :: tr).
Proof.
  unfold best_iterate. cbn [foldl lower].
  apply (foldl_lower_is_min tr r [r]). split; [now left|].
  intros r' Hr'. apply list_elem_of_singleton in Hr' as ->. apply Qle_refl.
Qed.

(** ** The optimisation loop *)

Section GradientDescentFacts.
Variable norm : vec -> Q.
Variable f : objective.
Variable cfg : config.

Local Abbreviation advanced := (advanced norm cfg).
Local Abbreviation faithful := (faithful f).

Section OneObserver.
Context {St : Type}.
Variable observer : step_info -> M St unit.

Local Abbreviation iteration := (gd_iteration norm f cfg observer).
Local Abbreviation loop := (gd_loop norm f cfg observer).
Local Abbreviation step := (gd_step norm f cfg observer).
Local Abbreviation steps := (gd_steps norm f cfg observer).

Lemma gd_iteration_inv st s st' c s' :
  iteration st s = (Ok (st', c), s') ->
  exists g v,
    gradient f (cur st) = Some g /\
    length g = length (cur st) /\
    value f (cur st') = Some v /\
    st' = advanced st g v /\
    c = Qltb (norm (difference (cur st') (cur st))) (tol cfg) /\
    observer {| at_t := iter st; at_weights := cur st'; at_val := v;
                at_grad := g; at_eta := learning_rate cfg (iter st) |} s
      = (Ok tt, s').
Proof.
  unfold gd_iteration.
  destruct (gradient f (cur st)) as [g|] eqn:Hg; [|discriminate].
  case_bool_decide as Hlen; [|discriminate].
  destruct (value f (descend _ _ g)) as [v|] eqn:Hv; [|discriminate].
  unfold bind, ret.
  destruct (observer _ s) as [[[]|e] s1] eqn:Hobs; [|discriminate].
  intros [= <- <- <-]. exists g, v. cbn [cur advanced]. auto 10.
Qed.

Lemma gd_iteration_iter st s st' c s' :
  iteration st s = (Ok (st', c), s') -> iter st' = S (iter st).
Proof.
  intros H. apply gd_iteration_inv in H as (g & v & _ & _ & _ & -> & _).
  reflexivity.
Qed.

Lemma gd_iteration_traj st s st' c s' :
  iteration st s = (Ok (st', c), s') ->
  exists r, traj st' = traj st ++ [r] /\
    it_index r = iter st /\ it_weights r = cur st' /\
    value f (it_weights r) = Some (it_value r).
Proof.
  intros H. apply gd_iteration_inv in H as (g & v & _ & _ & Hv & -> & _).
  eexists. split; [reflexivity|]. cbn in *. auto.
Qed.

(** *** The machine *)

Lemma gd_step_deterministic m m1 m2 : step m m1 -> step m m2 -> m1 = m2.
Proof.
  intros H1 H2.
  destruct H1 as [st s e s' E1|st s st' s' E1|st s st' s' E1 G1
                 |st s st' s' E1 G1];
    inversion H2 as [? ? e2 s2 E2|? ? st2 s2 E2|? ? st2 s2 E2 G2
                    |? ? st2 s2 E2 G2]; subst;
    rewrite E1 in E2; try discriminate E2;
    injection E2 as <- <- || injection E2 as <- <-;
    try reflexivity; lia.
Qed.

Lemma gd_step_terminated r s m : ~ step (Terminate r s) m.
Proof. intros H. inversion H. Qed.

(** A run that has reached termination in [n] steps bounds every run from
    the same state. *)
Lemma gd_steps_bounded n m r s' :
  steps n m (Terminate r s') ->
  forall k final, steps k m final -> k <= n.
Proof.
  intros H. remember (Terminate r s') as fin eqn:Efin.
  induction H as [m0|n m1 m2 m3 Hstep Hrest IH]; intros k final Hk; subst.
  - inversion Hk as [|k' a b c Hab _]; subst; [lia|].
    now apply gd_step_terminated in Hab.
  - inversion Hk as [|k' a b c Hab Hbc]; subst; [lia|].
    rewrite (gd_step_deterministic _ _ _ Hab Hstep) in Hbc.
    specialize (IH eq_refl _ _ Hbc). lia.
Qed.

(** *** The program against the machine *)

(** With [S k] iterations left up to the cap, the program's outcome is the
    state in which the machine terminates, after between 1 and [S k] steps;
    a run that ends well has recorded one iterate per step. *)
Lemma gd_loop_run k : forall st s,
  (Z.of_nat (iter st) + Z.of_nat (S k) = max_iter cfg)%Z ->
  exists n r s',
    1 <= n <= S k /\
    steps n (Iterate st s) (Terminate r s') /\
    loop (S k) st s = (r, s') /\
    forall st' why, r = Ok (st', why) ->
      iter st' = iter st + n /\
      length (traj st') = length (traj st) + n.
Proof.
  induction k as [|k IH]; intros st s Hcap; cbn [gd_loop]; unfold bind at 1;
    destruct (iteration st s) as [[[st1 c]|e] s1] eqn:Hit.
  2,4: exists 1, (Raise e), s1; split; [lia|];
       (split; [eapply steps_next; [apply step_error; exact Hit | apply steps_done]|]);
       (split; [reflexivity | discriminate]).
  all: pose proof (gd_iteration_iter _ _ _ _ _ Hit) as Hiter;
       destruct (gd_iteration_traj _ _ _ _ _ Hit) as (r1 & Htraj & _);
       destruct c; cbn [fst snd].
  1,3: exists 1, (Ok (st1, Converged)), s1; split; [lia|];
       (split; [eapply steps_next;
                [apply step_converged; exact Hit | apply steps_done]|]);
       (split; [reflexivity|]); intros ? ? [= <- <-];
       rewrite Htraj, length_app; cbn; lia.
  - exists 1, (Ok (st1, MaxIterations)), s1. split; [lia|].
    split; [eapply steps_next;
            [apply step_max_iterations; [exact Hit | lia] | apply steps_done]|].
    split; [reflexivity|]. intros ? ? [= <- <-].
    rewrite Htraj, length_app. cbn. lia.
  - destruct (IH st1 s1) as (n & r & s' & Hn & Hsteps & Hloop & Hok); [lia|].
    exists (S n), r, s'. split; [lia|].
    split; [eapply steps_next;
            [apply step_continue; [exact Hit | lia] | exact Hsteps]|].
    split; [exact Hloop|]. intros st' why Hr.
    destruct (Hok st' why Hr) as [Hi Hl].
    rewrite Hi, Hl, Hiter, Htraj, length_app. cbn. lia.
Qed.

(** The trajectory only grows. *)
Lemma gd_loop_traj_length k : forall st s st' why s',
  loop k st s = (Ok (st', why), s') ->
  length (traj st) <= length (traj st').
Proof.
  induction k as [|k IH]; intros st s st' why s'; cbn [gd_loop].
  - now intros [= <- <- <-].
  - unfold bind at 1.
    destruct (iteration st s) as [[[st1 c]|e] s1] eqn:Hit; [|discriminate].
    destruct (gd_iteration_traj _ _ _ _ _ Hit) as (r1 & Htraj & _).
    cbn [fst snd]. destruct c.
    + intros [= <- <- <-]. rewrite Htraj, length_app. lia.
    + intros Hloop. apply IH in Hloop.
      rewrite Htraj, length_app in Hloop. lia.
Qed.

(** What a run of the program that ends well has recorded. *)
Lemma gd_loop_faithful k : forall st s st' why s',
  loop k st s = (Ok (st', why), s') ->
  faithful (traj st) ->
  faithful (traj st') /\ (1 <= k -> traj st' <> []).
Proof.
  induction k as [|k IH]; intros st s st' why s'; cbn [gd_loop].
  - intros [= <- <- <-] Hf. split; [exact Hf | lia].
  - unfold bind at 1.
    destruct (iteration st s) as [[[st1 c]|e] s1] eqn:Hit; [|discriminate].
    destruct (gd_iteration_traj _ _ _ _ _ Hit) as (r1 & Htraj & _ & _ & Hv).
    intros Hloop Hf.
    assert (Hf1 : faithful (traj st1)).
    { rewrite Htraj. intros r [Hr|Hr]%elem_of_app; [now apply Hf|].
      now apply list_elem_of_singleton in Hr as ->. }
    cbn [fst snd] in Hloop. destruct c.
    + injection Hloop as <- <- <-. split; [exact Hf1|].
      intros _. rewrite Htraj. now destruct (traj st).
    + destruct (IH _ _ _ _ _ Hloop Hf1) as [Hf' _]. split; [exact Hf'|].
      intros _ Hnil. apply gd_loop_traj_length in Hloop.
      rewrite Hnil, Htraj, length_app in Hloop. cbn in Hloop. lia.
Qed.

Lemma fit_inv w0 s res s' :
  fit norm f cfg observer w0 s = (Ok res, s') ->
  (0 < max_iter cfg)%Z /\ (0 <= tol cfg)%Q /\
  exists st why,
    loop (Z.to_nat (max_iter cfg)) (init_state w0) s = (Ok (st, why), s') /\
    res = {| solution := select (out cfg) st; trajectory := traj st;
             stopped_by := why |}.
Proof.
  unfold fit.
  destruct (max_iter cfg <=? 0)%Z eqn:Hmax; [discriminate|].
  destruct (Qltb (tol cfg) 0) eqn:Htol; [discriminate|].
  cbn [orb]. unfold bind, ret.
  destruct (loop _ _ s) as [[[st why]|e] s1]; [|discriminate].
  intros [= <- <-]. split; [lia|]. split; [now apply Qltb_ge|].
  now exists st, why.
Qed.

(** C8. With output policy [best], a run that returns has picked one of the
    recorded iterates, and the objective's value at the returned weights is
    at most the value of every recorded iterate. *)
Theorem best_result_is_minimum w0 s res s' :
  out cfg = Best ->
  fit norm f cfg observer w0 s = (Ok res, s') ->
  exists b v,
    b ∈ trajectory res /\
    solution res = it_weights b /\
    value f (solution res) = Some v /\
    forall r, r ∈ trajectory res -> (v <= it_value r)%Q.
Proof.
  intros Hbest Hfit.
  apply fit_inv in Hfit as (Hmax & _ & st & why & Hloop & ->).
  cbn [trajectory solution]. rewrite Hbest. cbn [select].
  destruct (gd_loop_faithful _ _ _ _ _ _ Hloop) as [Hf Hne].
  { intros r Hr. inversion Hr. }
  destruct (traj st) as [|r0 tr] eqn:Htr; [destruct Hne; [lia|reflexivity]|].
  destruct (best_iterate_is_min r0 tr) as (b & -> & Hin & Hmin).
  exists b, (it_value b). cbn [fmap option_fmap option_map default].
  split; [exact Hin|]. split; [reflexivity|]. split; [now apply Hf|].
  exact Hmin.
Qed.

(** C9. For a positive maximum iteration count and a tolerance that is not
    negative, the machine started on any weights terminates after n steps
    with 1 <= n <= max_iter, no run from the start is longer, the program
    [fit] returns the outcome the machine terminated with, and a run that
    ends well has recorded exactly n iterates. *)
Theorem loop_terminates_within_max_iter w0 s :
  (0 < max_iter cfg)%Z ->
  (0 <= tol cfg)%Q ->
  exists n r s',
    1 <= n /\ (Z.of_nat n <= max_iter cfg)%Z /\
    steps n (Iterate (init_state w0) s) (Terminate r s') /\
    (forall k final,
       steps k (Iterate (init_state w0) s) final -> k <= n) /\
    fit norm f cfg observer w0 s =
      (match r with
       | Ok (st, why) =>
           Ok {| solution := select (out cfg) st; trajectory := traj st;
                 stopped_by := why |}
       | Raise e => Raise e
       end, s') /\
    (forall st why, r = Ok (st, why) -> length (traj st) = n).
Proof.
  intros Hmax Htol.
  destruct (Z.to_nat (max_iter cfg)) as [|k] eqn:Hk; [lia|].
  destruct (gd_loop_run k (init_state w0) s)
    as (n & r & s' & Hn & Hsteps & Hloop & Hok); [cbn [iter init_state]; lia|].
  exists n, r, s'. split; [lia|]. split; [lia|]. split; [exact Hsteps|].
  split; [exact (gd_steps_bounded _ _ _ _ Hsteps)|]. split.
  - unfold fit. replace (max_iter cfg <=? 0)%Z with false by lia.
    apply Qltb_ge in Htol. rewrite Htol. cbn [orb].
    unfold bind. rewrite Hk, Hloop. now destruct r as [[st why]|e].
  - intros st why Hr. now destruct (Hok st why Hr) as [_ ->].
Qed.
End OneObserver.

(** *** Two runs *)

Section TwoObservers.
Context {S1 S2 : Type}.
Variable observer1 : step_info -> M S1 unit.
Variable observer2 : step_info -> M S2 unit.

(** Whatever the observers do, two iterations from the same loop state that
    both go through leave the same loop state and the same flag. *)
Lemma gd_iteration_same st s1 s2 x1 x2 s1' s2' :
  gd_iteration norm f cfg observer1 st s1 = (Ok x1, s1') ->
  gd_iteration norm f cfg observer2 st s2 = (Ok x2, s2') ->
  x1 = x2.
Proof.
  destruct x1 as [st1 c1], x2 as [st2 c2]. intros H1 H2.
  apply gd_iteration_inv in H1 as (g1 & v1 & Hg1 & _ & Hv1 & E1 & -> & _).
  apply gd_iteration_inv in H2 as (g2 & v2 & Hg2 & _ & Hv2 & E2 & -> & _).
  assert (g2 = g1) as -> by congruence.
  assert (Hcur : cur st2 = cur st1) by now rewrite E1, E2.
  assert (v2 = v1) as -> by (rewrite Hcur in Hv2; congruence).
  subst st1 st2. reflexivity.
Qed.

Lemma gd_loop_same k : forall st s1 s2 x1 x2 s1' s2',
  gd_loop norm f cfg observer1 k st s1 = (Ok x1, s1') ->
  gd_loop norm f cfg observer2 k st s2 = (Ok x2, s2') ->
  x1 = x2.
Proof.
  induction k as [|k IH]; intros st s1 s2 x1 x2 s1' s2'; cbn [gd_loop].
  - intros [= <- _] [= <- _]. reflexivity.
  - unfold bind at 1 2.
    destruct (gd_iteration norm f cfg observer1 st s1)
      as [[y1|e1] t1] eqn:H1; [|discriminate].
    destruct (gd_iteration norm f cfg observer2 st s2)
      as [[y2|e2] t2] eqn:H2; [|discriminate].
    rewrite (gd_iteration_same _ _ _ _ _ _ _ H1 H2).
    destruct (snd y2).
    + intros [= <- _] [= <- _]. reflexivity.
    + apply IH.
Qed.

(** Two runs that both return, return the same result, whatever their
    observers and the states those work on. *)
Lemma fit_same_result w0 s1 s2 res1 res2 s1' s2' :
  fit norm f cfg observer1 w0 s1 = (Ok res1, s1') ->
  fit norm f cfg observer2 w0 s2 = (Ok res2, s2') ->
  res1 = res2.
Proof.
  intros H1 H2.
  apply fit_inv in H1 as (_ & _ & st1 & why1 & Hloop1 & ->).
  apply fit_inv in H2 as (_ & _ & st2 & why2 & Hloop2 & ->).
  now pose proof (gd_loop_same _ _ _ _ _ _ _ _ Hloop1 Hloop2) as [= -> ->].
Qed.

(** *** Observers in step

    Two observers, each on a state of its own, are in step for a relation
    between the states when, shown the same iteration in related states,
    they end the same way and leave related states. *)
Variable related : S1 -> S2 -> Prop.
Hypothesis in_step : forall i s1 s2,
  related s1 s2 ->
  fst (observer1 i s1) = fst (observer2 i s2) /\
  related (snd (observer1 i s1)) (snd (observer2 i s2)).

Lemma gd_iteration_in_step st s1 s2 :
  related s1 s2 ->
  fst (gd_iteration norm f cfg observer1 st s1) =
    fst (gd_iteration norm f cfg observer2 st s2) /\
  related (snd (gd_iteration norm f cfg observer1 st s1))
          (snd (gd_iteration norm f cfg observer2 st s2)).
Proof.
  intros Hrel. unfold gd_iteration.
  destruct (gradient f (cur st)) as [g|]; [|now split].
  case_bool_decide; [|now split].
  destruct (value f _) as [v|]; [|now split].
  unfold bind, ret.
  match goal with
  | |- context [observer1 ?i s1] =>
      destruct (in_step i s1 s2 Hrel) as [Hout Hnext];
      destruct (observer1 i s1) as [[[]|e1] u1];
      destruct (observer2 i s2) as [[[]|e2] u2]
  end; cbn [fst snd] in *; try discriminate Hout;
    try injection Hout as ->; now split.
Qed.

Lemma gd_loop_in_step k : forall st s1 s2,
  related s1 s2 ->
  fst (gd_loop norm f cfg observer1 k st s1) =
    fst (gd_loop norm f cfg observer2 k st s2) /\
  related (snd (gd_loop norm f cfg observer1 k st s1))
          (snd (gd_loop norm f cfg observer2 k st s2)).
Proof.
  induction k as [|k IH]; intros st s1 s2 Hrel; cbn [gd_loop].
  - now split.
  - unfold bind at 1 2 3 4.
    destruct (gd_iteration_in_step st s1 s2 Hrel) as [Hout Hnext].
    destruct (gd_iteration norm f cfg observer1 st s1) as [[x1|e1] u1];
      destruct (gd_iteration norm f cfg observer2 st s2) as [[x2|e2] u2];
      cbn [fst snd] in *; try discriminate Hout.
    + injection Hout as ->. destruct (snd x2); [now split | now apply IH].
    + injection Hout as ->. now split.
Qed.

(** Runs whose observers are in step end the same way, error or result, and
    leave related states. *)
Lemma fit_in_step w0 s1 s2 :
  related s1 s2 ->
  fst (fit norm f cfg observer1 w0 s1) = fst (fit norm f cfg observer2 w0 s2) /\
  related (snd (fit norm f cfg observer1 w0 s1))
          (snd (fit norm f cfg observer2 w0 s2)).
Proof.
  intros Hrel. unfold fit.
  destruct ((max_iter cfg <=? 0)%Z || Qltb (tol cfg) 0); [now split|].
  unfold bind, ret.
  destruct (gd_loop_in_step (Z.to_nat (max_iter cfg)) (init_state w0)
              s1 s2 Hrel) as [Hout Hnext].
  destruct (gd_loop norm f cfg observer1 _ _ s1) as [[x1|e1] u1];
    destruct (gd_loop norm f cfg observer2 _ _ s2) as [[x2|e2] u2];
    cbn [fst snd] in *; try discriminate Hout.
  - injection Hout as ->. now split.
  - injection Hout as ->. now split.
Qed.
End TwoObservers.
End GradientDescentFacts.

(** With the recorder of the script as observer, the first iteration that
    gets as far as the observer ends the run: no [fit] returns. *)
Lemma fit_with_recorder_never_returns
    (norm : vec -> Q) (f : objective) (cfg : config) (env : closure)
    (w0 : vec) (h : heap) (res : gd_result) (h' : heap) :
  fit norm f cfg (recorder_observer env) w0 h <> (Ok res, h').
Proof.
  intros Hfit.
  apply fit_inv in Hfit as (Hmax & _ & st & why & Hloop & _).
  destruct (Z.to_nat (max_iter cfg)) as [|k] eqn:Hk; [lia|].
  cbn [gd_loop] in Hloop. unfold bind at 1 in Hloop.
  destruct (gd_iteration _ _ _ _ _ h) as [[x|e] h1] eqn:Hit; [|discriminate].
  destruct x as [st1 c].
  apply gd_iteration_inv in Hit as (g & v & _ & _ & _ & _ & _ & Hobs).
  unfold recorder_observer in Hobs.
  rewrite callback_no_append in Hobs by discriminate. discriminate.
Qed.

(** ** What two runs leave in their recorders *)

Lemma recording_observer_spec ws ls i (h : heap) :
  recording_observer ws ls i h =
    (Ok tt,
     snd (list_append ls (PyFloat (at_val i))
            (snd (list_append ws (PyArray (at_weights i)) h)))).
Proof. reflexivity. Qed.

Lemma recording_observer_lists (ws ls : nat) i (h : heap) :
  ws <> ls ->
  snd (recording_observer ws ls i h) !! ws =
    (fun items => items ++ [PyArray (at_weights i)]) <$> h !! ws /\
  snd (recording_observer ws ls i h) !! ls =
    (fun items => items ++ [PyFloat (at_val i)]) <$> h !! ls.
Proof.
  intros Hne. rewrite recording_observer_spec. cbn [snd]. split.
  - rewrite list_append_other by exact Hne. apply list_append_here.
  - rewrite list_append_here. now rewrite list_append_other by congruence.
Qed.

(** A run with the recorder as documented that starts with the trajectory
    so far in the two lists and returns, ends with the whole trajectory in
    them. *)
Lemma gd_loop_recording norm f cfg (ws ls : nat) k :
  forall st (h : heap) st' why h',
  ws <> ls ->
  gd_loop norm f cfg (recording_observer ws ls) k st h = (Ok (st', why), h') ->
  h !! ws = Some (PyArray <$> (it_weights <$> traj st)) ->
  h !! ls = Some (PyFloat <$> (it_value <$> traj st)) ->
  h' !! ws = Some (PyArray <$> (it_weights <$> traj st')) /\
  h' !! ls = Some (PyFloat <$> (it_value <$> traj st')).
Proof.
  induction k as [|k IH]; intros st h st' why h' Hne; cbn [gd_loop].
  - intros [= <- <- <-]. now split.
  - unfold bind at 1.
    destruct (gd_iteration _ _ _ _ st h) as [[[st1 c]|e] h1] eqn:Hit;
      [|discriminate].
    cbn [fst snd]. intros Hloop Hws Hls.
    apply gd_iteration_inv in Hit as (g & v & _ & _ & _ & -> & _ & Hobs).
    destruct (recording_observer_lists ws ls
                {| at_t := iter st;
                   at_weights := cur (advanced norm cfg st g v);
                   at_val := v; at_grad := g;
                   at_eta := learning_rate cfg (iter st) |} h Hne)
      as [Hws1 Hls1].
    rewrite Hobs in Hws1, Hls1. cbn [snd at_weights at_val] in Hws1, Hls1.
    rewrite Hws in Hws1. rewrite Hls in Hls1.
    assert (Hws' : h1 !! ws =
      Some (PyArray <$> (it_weights <$> traj (advanced norm cfg st g v)))).
    { rewrite Hws1. cbn. now rewrite !fmap_app. }
    assert (Hls' : h1 !! ls =
      Some (PyFloat <$> (it_value <$> traj (advanced norm cfg st g v)))).
    { rewrite Hls1. cbn. now rewrite !fmap_app. }
    destruct c.
    + injection Hloop as <- <- <-. now split.
    + exact (IH _ _ _ _ _ Hne Hloop Hws' Hls').
Qed.

(** C10. Two runs on the same objective, step-size policy, configuration
    and initial weights, each with a recorder of its own made by
    [get_gd_state_recorder_callback] in whatever store the run starts in,
    end the same way, and the weights list and the losses list the first
    recorder holds afterwards are equal to the lists the second holds.
    This is so with the recorder of the script as callback (both runs end
    alike and the lists agree), and it is so with the recorder as
    documented, whose two lists then hold, entry for entry, the weights and
    the values of the trajectory the run returns. *)
Theorem two_runs_record_identical_lists
    (norm : vec -> Q) (f : objective) (cfg : config) (w0 : vec)
    (h1 h2 : heap) :
  exists env1 ws1 ls1 a1 env2 ws2 ls2 a2,
    get_gd_state_recorder_callback h1 = (Ok (env1, ws1, ls1), a1) /\
    get_gd_state_recorder_callback h2 = (Ok (env2, ws2, ls2), a2) /\
    (let run1 := fit norm f cfg (recorder_observer env1) w0 a1 in
     let run2 := fit norm f cfg (recorder_observer env2) w0 a2 in
     fst run1 = fst run2 /\
     snd run1 !! ws1 = snd run2 !! ws2 /\
     snd run1 !! ls1 = snd run2 !! ls2) /\
    (let run1 := fit norm f cfg (recording_observer ws1 ls1) w0 a1 in
     let run2 := fit norm f cfg (recording_observer ws2 ls2) w0 a2 in
     fst run1 = fst run2 /\
     snd run1 !! ws1 = snd run2 !! ws2 /\
     snd run1 !! ls1 = snd run2 !! ls2 /\
     forall res, fst run1 = Ok res ->
       snd run1 !! ws1 = Some (PyArray <$> recorded_weights res) /\
       snd run1 !! ls1 = Some (PyFloat <$> recorded_losses res)).
Proof.
  do 8 eexists.
  split; [apply get_recorder_spec|]. split; [apply get_recorder_spec|].
  set (ls1 := S (length h1)). set (ws1 := length h1).
  set (ls2 := S (length h2)). set (ws2 := length h2).
  set (a1 := h1 ++ [[]; []]). set (a2 := h2 ++ [[]; []]).
  set (related := fun b1 b2 : heap =>
         b1 !! ws1 = b2 !! ws2 /\ b1 !! ls1 = b2 !! ls2).
  assert (Hws1 : a1 !! ws1 = Some []).
  { unfold a1, ws1. rewrite lookup_app_r by lia. now rewrite Nat.sub_diag. }
  assert (Hls1 : a1 !! ls1 = Some []).
  { unfold a1, ls1. rewrite lookup_app_r by lia.
    now replace (S (length h1) - length h1) with 1 by lia. }
  assert (Hws2 : a2 !! ws2 = Some []).
  { unfold a2, ws2. rewrite lookup_app_r by lia. now rewrite Nat.sub_diag. }
  assert (Hls2 : a2 !! ls2 = Some []).
  { unfold a2, ls2. rewrite lookup_app_r by lia.
    now replace (S (length h2) - length h2) with 1 by lia. }
  assert (Hstart : related a1 a2).
  { unfold related. now rewrite Hws1, Hws2, Hls1, Hls2. }
  split; cbn zeta.
  - destruct (fit_in_step norm f cfg
                (recorder_observer
                   {| cell_weights := ws1; cell_losses := ls1 |})
                (recorder_observer
                   {| cell_weights := ws2; cell_losses := ls2 |})
                related) with (w0 := w0) (s1 := a1) (s2 := a2)
      as [Hout [Hw Hl]]; [|exact Hstart|auto].
    intros i b1 b2 Hrel. unfold recorder_observer.
    rewrite !callback_no_append by discriminate. now split.
  - destruct (fit_in_step norm f cfg
                (recording_observer ws1 ls1) (recording_observer ws2 ls2)
                related) with (w0 := w0) (s1 := a1) (s2 := a2)
      as [Hout [Hw Hl]]; [|exact Hstart|].
    { intros i b1 b2 [Hrw Hrl]. split; [reflexivity|].
      destruct (recording_observer_lists ws1 ls1 i b1) as [E1 E2];
        [unfold ws1, ls1; lia|].
      destruct (recording_observer_lists ws2 ls2 i b2) as [E3 E4];
        [unfold ws2, ls2; lia|].
      unfold related; cbn beta. now rewrite E1, E2, E3, E4, Hrw, Hrl. }
    split; [exact Hout|]. split; [exact Hw|]. split; [exact Hl|].
    clear Hout Hw Hl. intros res Hres.
    destruct (fit norm f cfg (recording_observer ws1 ls1) w0 a1)
      as [r1 b1] eqn:Hfit.
    cbn [fst snd] in Hres |- *. rewrite Hres in Hfit.
    apply fit_inv in Hfit as (_ & _ & st & why & Hloop & ->).
    unfold recorded_weights, recorded_losses. cbn [trajectory].
    eapply gd_loop_recording; [|exact Hloop|exact Hws1|exact Hls1].
    unfold ws1, ls1. lia.
Qed.

(** ** Instances *)

(** A Python list handed over as [weights] receives itself, and only then is
    the value recorded. *)
Example callback_given_a_python_list :
  callback {| cell_weights := 0; cell_losses := 1 |}
    {| solver := PyNone; weights := PyRef 2; val := PyFloat 3%Q;
       grad := PyNone; t := PyNone; eta := PyNone; delta := PyNone |}
    [[]; []; []]
  = (Ok tt, [[]; [PyFloat 3%Q]; [PyRef 2]]).
Proof. reflexivity. Qed.

(** A file that is not there, and a table without a [famhist] column. *)
Example load_data_missing_file :
  load_data (read_csv_in [("SAheart.data", SAheart_head)])
    split_train_test_model "heart.csv" (4 # 5) [0; 1; 2; 3]
  = (Raise FileNotFoundError, [0; 1; 2; 3]).
Proof. reflexivity. Qed.

Example load_data_missing_famhist :
  load_data (read_csv_in [("t.csv", [("chd", [CInt 1])])])
    split_train_test_model "t.csv" (4 # 5) [0]
  = (Raise AttributeError, [0]).
Proof. reflexivity. Qed.

(** The scenario of the specification: squared L2 norm from (1, 1), fixed
    learning rate 1/2, one iteration, ends in (0, 0). *)
Example fit_l2_one_step :
  fit norm1 L2
    {| learning_rate := FixedLR (1 # 2); max_iter := 1; tol := 0%Q;
       out := Last |}
    no_observer [1%Q; 1%Q] tt
  = (Ok {| solution := [0%Q; 0%Q];
           trajectory := [{| it_index := 0; it_weights := [0%Q; 0%Q];
                             it_value := 0%Q; it_grad_norm := 4%Q |}];
           stopped_by := MaxIterations |}, tt).
Proof. reflexivity. Qed.

Example fit_rejects_zero_iterations :
  fit norm1 L2 (fixed_rate_solver 1%Q 0 0%Q) no_observer [1%Q; 1%Q] tt
  = (Raise InvalidConfiguration, tt).
Proof. reflexivity. Qed.

(** A fit as [compare_fixed_learning_rates] starts it, with the script's
    recorder as callback, ends in the recorder's [AttributeError]. *)
Example fit_with_script_recorder :
  (do r <- get_gd_state_recorder_callback;
   fit norm1 L2 (fixed_rate_solver (1 # 10) 1000 (1 # 100000))
     (recorder_observer (fst (fst r))) [7 # 5; 9 # 10])%py []
  = (Raise AttributeError, [[]; []]).
Proof. vm_compute. reflexivity. Qed.

Lemma load_data_recodes_famhist_witness :
  let path := "../datasets/SAheart.data" in
  let read := read_csv_in (S := list nat) [(path, SAheart_head)] in
  let famhist :=
    [CStr "Present"; CStr "Absent"; CStr "Present"; CStr "Present"] in
  let order := [2; 0; 3; 1] in
  (read path order = (Ok SAheart_head, order) /\
   column SAheart_head "famhist" = Some famhist /\
   "chd" ∈ labels SAheart_head /\
   "row.names" ∈ labels SAheart_head) /\
  exists X y coded,
    load_data read split_train_test_model path (1 # 2) order =
      split_train_test_model X y (1 # 2) order /\
    column X "famhist" = Some coded /\
    length coded = length famhist /\
    forall i c, famhist !! i = Some c ->
      (c = CStr "Present" -> coded !! i = Some (CInt 1)) /\
      (c <> CStr "Present" -> coded !! i = Some (CInt 0)).
Proof.
  cbn zeta.
  assert (Hchd : "chd" ∈ labels SAheart_head)
    by (apply list_elem_of_In; simpl; auto 10).
  assert (Hrow : "row.names" ∈ labels SAheart_head)
    by (apply list_elem_of_In; simpl; auto 10).
  split; [repeat split; assumption|].
  apply (load_data_recodes_famhist
           (read_csv_in [("../datasets/SAheart.data", SAheart_head)])
           split_train_test_model "../datasets/SAheart.data" (1 # 2)
           [2; 0; 3; 1] SAheart_head [2; 0; 3; 1]);
    [reflexivity | reflexivity | assumption | assumption].
Defined.

Lemma load_data_features_and_response_witness :
  let path := "../datasets/SAheart.data" in
  let read := read_csv_in (S := list nat) [(path, SAheart_head)] in
  let order := [2; 0; 3; 1] in
  let train_X := [("sbp", [CInt 118; CInt 160]);
                  ("famhist", [CInt 1; CInt 1]);
                  ("age", [CInt 46; CInt 52])] in
  let test_X := [("sbp", [CInt 170; CInt 144]);
                 ("famhist", [CInt 1; CInt 0]);
                 ("age", [CInt 58; CInt 63])] in
  let train_y := [CInt 0; CInt 1] in
  let test_y := [CInt 1; CInt 1] in
  (row_wise split_train_test_model /\
   load_data read split_train_test_model path (1 # 2) order =
     (Ok (train_X, train_y, test_X, test_y), order)) /\
  exists df s0 famhist chd train test,
    let X := filter (fun c => fst c ∉ ["chd"; "row.names"])
               (setattr_column df "famhist"
                  ((fun c => astype_int (eq_str "Present" c)) <$> famhist)) in
    read path order = (Ok df, s0) /\
    column df "famhist" = Some famhist /\
    column df "chd" = Some chd /\
    load_data read split_train_test_model path (1 # 2) order =
      split_train_test_model X chd (1 # 2) s0 /\
    (column X "chd" = None /\ column X "row.names" = None) /\
    (train_X = select_rows train X /\ train_y = take_rows train chd) /\
    (test_X = select_rows test X /\ test_y = take_rows test chd) /\
    (column train_X "chd" = None /\ column train_X "row.names" = None) /\
    (column test_X "chd" = None /\ column test_X "row.names" = None) /\
    labels train_X = filter (fun n => n ∉ ["chd"; "row.names"]) (labels df) /\
    labels test_X = filter (fun n => n ∉ ["chd"; "row.names"]) (labels df).
Proof.
  cbn zeta. split.
  - split; [exact split_train_test_model_row_wise | reflexivity].
  - apply (load_data_features_and_response
             (read_csv_in [("../datasets/SAheart.data", SAheart_head)])
             split_train_test_model "../datasets/SAheart.data" (1 # 2)
             [2; 0; 3; 1] _ _ _ _ [2; 0; 3; 1]);
      [exact split_train_test_model_row_wise | reflexivity].
Defined.

Lemma best_result_is_minimum_witness :
  let cfg := fixed_rate_solver (1 # 4) 5 (1 # 10) in
  let w0 := [1%Q; 1%Q] in
  exists res,
    (out cfg = Best /\ fit norm1 L2 cfg no_observer w0 tt = (Ok res, tt)) /\
    exists b v,
      b ∈ trajectory res /\
      solution res = it_weights b /\
      value L2 (solution res) = Some v /\
      forall r, r ∈ trajectory res -> (v <= it_value r)%Q.
Proof.
  cbn zeta. eexists. split.
  - split; [reflexivity | vm_compute; reflexivity].
  - eapply (best_result_is_minimum norm1 L2
              (fixed_rate_solver (1 # 4) 5 (1 # 10)) no_observer
              [1%Q; 1%Q] tt _ tt);
      [reflexivity | vm_compute; reflexivity].
Defined.

Lemma loop_terminates_within_max_iter_witness :
  let cfg := fixed_rate_solver (1 # 4) 5 (1 # 10) in
  let w0 := [1%Q; 1%Q] in
  ((0 < max_iter cfg)%Z /\ (0 <= tol cfg)%Q) /\
  exists n r s',
    1 <= n /\ (Z.of_nat n <= max_iter cfg)%Z /\
    gd_steps norm1 L2 cfg no_observer n
      (Iterate (init_state w0) tt) (Terminate r s') /\
    (forall k final,
       gd_steps norm1 L2 cfg no_observer k (Iterate (init_state w0) tt) final ->
       k <= n) /\
    fit norm1 L2 cfg no_observer w0 tt =
      (match r with
       | Ok (st, why) =>
           Ok {| solution := select (out cfg) st; trajectory := traj st;
                 stopped_by := why |}
       | Raise e => Raise e
       end, s') /\
    (forall st why, r = Ok (st, why) -> length (traj st) = n).
Proof.
  cbn zeta. split.
  - split; [reflexivity | discriminate].
  - apply (loop_terminates_within_max_iter norm1 L2
             (fixed_rate_solver (1 # 4) 5 (1 # 10)) no_observer [1%Q; 1%Q] tt);
      [reflexivity | discriminate].
Defined.

(** * Further properties *)

(** ** More on the recorder *)



(** X1. A call records all or nothing.  A call that raises leaves the store
    exactly as it found it, so nothing is half-recorded; a call that returns
    leaves [val] as the last item of the losses list. *)
Theorem callback_all_or_nothing (env : closure) (a : cb_args) (h : heap) :
  (forall e h', callback env a h = (Raise e, h') -> h' = h) /\
  (forall h' items,
     callback env a h = (Ok tt, h') ->
     h' !! cell_losses env = Some items ->
     last items = Some (val a)).
Proof.
  destruct (weights a) as [| |arr|l] eqn:Hw.
  1-3: rewrite callback_no_append by (rewrite Hw; discriminate);
       split; [now intros e h' [= <- <-] | intros h' items [=]].
  rewrite (callback_list _ _ l) by assumption. split; [intros e h' [=]|].
  intros h' items [= <-]. rewrite list_lookup_alter_eq.
  destruct (alter _ l h !! _) as [before|]; cbn; [|discriminate].
  intros [= <-]. apply last_snoc.
Qed.

(** X2. A Python list handed over as [weights] ends up holding a reference
    to itself: the call appends the list to the list.  When that list is the
    recorder's own losses list, the value follows the self-reference. *)
Theorem callback_appends_list_to_itself
    (env : closure) (a : cb_args) (l : loc) (h : heap) :
  weights a = PyRef l ->
  snd (callback env a h) !! l =
    (fun items =>
       items ++ PyRef l ::
         (if decide (l = cell_losses env) then [val a] else []))
      <$> h !! l.
Proof.
  intros Hw. rewrite (callback_list _ _ l) by assumption. cbn [snd].
  destruct (decide (l = cell_losses env)) as [->|Hne].
  - rewrite !list_append_here. destruct (h !! cell_losses env); cbn;
      [now rewrite <- app_assoc | reflexivity].
  - rewrite list_append_other by assumption. apply list_append_here.
Qed.

Lemma callback_appends_list_to_itself_witness :
  let env := {| cell_weights := 0; cell_losses := 1 |} in
  let a := {| solver := PyNone; weights := PyRef 2; val := PyFloat 3%Q;
              grad := PyNone; t := PyNone; eta := PyNone; delta := PyNone |} in
  weights a = PyRef 2 /\
  snd (callback env a [[]; []; [PyNone]]) !! 2 = Some [PyNone; PyRef 2].
Proof.
  cbn zeta. split; [reflexivity|].
  exact (callback_appends_list_to_itself
           {| cell_weights := 0; cell_losses := 1 |}
           {| solver := PyNone; weights := PyRef 2; val := PyFloat 3%Q;
              grad := PyNone; t := PyNone; eta := PyNone; delta := PyNone |}
           2 [[]; []; [PyNone]] eq_refl).
Defined.







(** ** More on the data loader *)

Lemma drop_columns_missing {S} (df : DataFrame) names n (s : S) :
  n ∈ names -> n ∉ labels df ->
  drop_columns df names s = (Raise KeyError, s).
Proof.
  intros Hin Hmiss. unfold drop_columns.
  destruct (forallb _ names) eqn:Hall; [|reflexivity].
  rewrite forallb_forall in Hall.
  apply list_elem_of_In, Hall, bool_decide_eq_true in Hin. contradiction.
Qed.

Section LoadDataErrors.
Context {world : Type}.
Variable read_csv : string -> M world DataFrame.
Variable split_train_test :
  DataFrame -> Series -> Q ->
  M world (DataFrame * Series * DataFrame * Series).

Local Abbreviation load := (load_data read_csv split_train_test).

(** X5. A file without a [famhist] column makes [load_data] raise
    [AttributeError], in the state the read left behind: nothing is dropped
    and nothing is split. *)
Theorem load_data_without_famhist path p s df s0 :
  read_csv path s = (Ok df, s0) ->
  "famhist" ∉ labels df ->
  load path p s = (Raise AttributeError, s0).
Proof.
  intros Hread Hmiss. apply column_None in Hmiss.
  unfold load_data, bind at 1. rewrite Hread.
  unfold getattr_column at 1, bind at 1. now rewrite Hmiss.
Qed.

(** X6. A file that has [famhist] but lacks [chd] or [row.names] makes
    [load_data] raise [KeyError], in the state the read left behind; the
    split is not reached. *)
Theorem load_data_without_label path p s df s0 :
  read_csv path s = (Ok df, s0) ->
  "famhist" ∈ labels df ->
  ("chd" ∉ labels df) \/ ("row.names" ∉ labels df) ->
  load path p s = (Raise KeyError, s0).
Proof.
  intros Hread Hfam Hmiss. apply column_is_Some in Hfam as [famhist Hfam].
  unfold load_data, bind at 1. rewrite Hread.
  unfold getattr_column at 1, bind at 1. rewrite Hfam. cbn [ret].
  unfold bind at 1.
  assert (Hdrop : forall n, n ∈ ["chd"; "row.names"] -> n ∉ labels df ->
    drop_columns
      (setattr_column df "famhist"
         ((fun c => astype_int (eq_str "Present" c)) <$> famhist))
      ["chd"; "row.names"] s0 = (Raise KeyError, s0)).
  { intros n Hn Hnot. apply (drop_columns_missing _ _ n); [exact Hn|].
    now rewrite labels_setattr_column. }
  destruct Hmiss as [Hm|Hm].
  - rewrite (Hdrop "chd"); [reflexivity | now left | exact Hm].
  - rewrite (Hdrop "row.names"); [reflexivity | right; now left | exact Hm].
Qed.

(** X7. Every way [load_data] can fail: the read failed; or the table has
    no [famhist] column ([AttributeError]); or it has one but lacks [chd]
    or [row.names] ([KeyError]); or the split itself failed.  In the first
    three cases the state is the one the read left. *)
Theorem load_data_failures path p s e s' :
  load path p s = (Raise e, s') ->
  read_csv path s = (Raise e, s') \/
  exists df s0,
    read_csv path s = (Ok df, s0) /\
    ((("famhist" ∉ labels df) /\ e = AttributeError /\ s' = s0) \/
     (("famhist" ∈ labels df) /\
      (("chd" ∉ labels df) \/ ("row.names" ∉ labels df)) /\
      e = KeyError /\ s' = s0) \/
     (exists X y, split_train_test X y p s0 = (Raise e, s'))).
Proof.
  intros Hload.
  destruct (read_csv path s) as [[df|e0] s0] eqn:Hread.
  2: { left. unfold load_data, bind at 1 in Hload. rewrite Hread in Hload.
       now injection Hload as -> ->. }
  right. exists df, s0. split; [reflexivity|].
  destruct (decide ("famhist" ∈ labels df)) as [Hfam|Hfam].
  2: { left. rewrite (load_data_without_famhist _ _ _ _ _ Hread Hfam) in Hload.
       injection Hload as <- <-. auto. }
  destruct (decide ("chd" ∈ labels df)) as [Hchd|Hchd].
  2: { right; left.
       rewrite (load_data_without_label _ _ _ _ _ Hread Hfam (or_introl Hchd))
         in Hload.
       injection Hload as <- <-. auto. }
  destruct (decide ("row.names" ∈ labels df)) as [Hrow|Hrow].
  2: { right; left.
       rewrite (load_data_without_label _ _ _ _ _ Hread Hfam (or_intror Hrow))
         in Hload.
       injection Hload as <- <-. auto. }
  right; right.
  apply column_is_Some in Hfam as [famhist Hfam].
  apply column_is_Some in Hchd as [chd Hchd].
  rewrite (load_data_found _ _ _ _ _ _ _ _ _ Hread Hfam Hchd Hrow) in Hload.
  eauto.
Qed.

(** X8. The recode touches the [famhist] column only.  The table handed to
    the split has the labels of the file except [chd] and [row.names], in
    the order of the file, and every column other than [famhist] is cell
    for cell the column of the file. *)
Theorem load_data_keeps_other_columns path p s df s0 :
  read_csv path s = (Ok df, s0) ->
  "famhist" ∈ labels df ->
  "chd" ∈ labels df ->
  "row.names" ∈ labels df ->
  exists X y,
    load path p s = split_train_test X y p s0 /\
    labels X = filter (fun n => n ∉ ["chd"; "row.names"]) (labels df) /\
    forall n, n <> "famhist" -> n <> "chd" -> n <> "row.names" ->
      column X n = column df n.
Proof.
  intros Hread Hfam Hchd Hrow.
  apply column_is_Some in Hfam as [famhist Hfam].
  apply column_is_Some in Hchd as [chd Hchd].
  eexists _, chd. split; [eapply load_data_found; eassumption|].
  split.
  - now rewrite labels_filter, labels_setattr_column.
  - intros n Hn1 Hn2 Hn3. rewrite column_filter_keep.
    + now apply column_setattr_column_ne.
    + intros Hin. apply list_elem_of_In in Hin.
      destruct Hin as [H|[H|[]]]; congruence.
Qed.
End LoadDataErrors.

Lemma load_data_without_famhist_witness :
  let df := [("row.names", [CInt 1]); ("chd", [CInt 0])] in
  let read := read_csv_in (S := list nat) [("t.csv", df)] in
  (read "t.csv" [0] = (Ok df, [0]) /\ ("famhist" ∉ labels df)) /\
  load_data read split_train_test_model "t.csv" (1 # 2) [0] =
    (Raise AttributeError, [0]).
Proof.
  cbn zeta.
  assert (Hmiss : "famhist" ∉ labels [("row.names", [CInt 1]);
                                      ("chd", [CInt 0])]).
  { intros H. apply list_elem_of_In in H.
    destruct H as [H|[H|[]]]; discriminate H. }
  split; [split; [reflexivity | exact Hmiss]|].
  exact (load_data_without_famhist
           (read_csv_in [("t.csv", [("row.names", [CInt 1]);
                                    ("chd", [CInt 0])])])
           split_train_test_model "t.csv" (1 # 2) [0] _ [0] eq_refl Hmiss).
Defined.

Lemma load_data_without_label_witness :
  let df := [("famhist", [CStr "Absent"]); ("chd", [CInt 0])] in
  let read := read_csv_in (S := list nat) [("t.csv", df)] in
  (read "t.csv" [0] = (Ok df, [0]) /\
   ("famhist" ∈ labels df) /\
   (("chd" ∉ labels df) \/ ("row.names" ∉ labels df))) /\
  load_data read split_train_test_model "t.csv" (1 # 2) [0] =
    (Raise KeyError, [0]).
Proof.
  cbn zeta.
  assert (Hfam : "famhist" ∈ labels [("famhist", [CStr "Absent"]);
                                     ("chd", [CInt 0])])
    by (apply list_elem_of_In; simpl; auto).
  assert (Hmiss : "row.names" ∉ labels [("famhist", [CStr "Absent"]);
                                        ("chd", [CInt 0])]).
  { intros H. apply list_elem_of_In in H.
    destruct H as [H|[H|[]]]; discriminate H. }
  split; [split; [reflexivity | split; [exact Hfam | right; exact Hmiss]]|].
  exact (load_data_without_label
           (read_csv_in [("t.csv", [("famhist", [CStr "Absent"]);
                                    ("chd", [CInt 0])])])
           split_train_test_model "t.csv" (1 # 2) [0] _ [0] eq_refl Hfam
           (or_intror Hmiss)).
Defined.

Lemma load_data_failures_witness :
  let read := read_csv_in (S := list nat) [("SAheart.data", SAheart_head)] in
  load_data read split_train_test_model "heart.csv" (4 # 5) [0; 1; 2; 3] =
    (Raise FileNotFoundError, [0; 1; 2; 3]) /\
  (read "heart.csv" [0; 1; 2; 3] = (Raise FileNotFoundError, [0; 1; 2; 3]) \/
   exists df s0,
     read "heart.csv" [0; 1; 2; 3] = (Ok df, s0) /\
     ((("famhist" ∉ labels df) /\ FileNotFoundError = AttributeError /\
       [0; 1; 2; 3] = s0) \/
      (("famhist" ∈ labels df) /\
       (("chd" ∉ labels df) \/ ("row.names" ∉ labels df)) /\
       FileNotFoundError = KeyError /\ [0; 1; 2; 3] = s0) \/
      (exists X y,
         split_train_test_model X y (4 # 5) s0 =
           (Raise FileNotFoundError, [0; 1; 2; 3])))).
Proof.
  cbn zeta. split; [reflexivity|].
  exact (load_data_failures
           (read_csv_in [("SAheart.data", SAheart_head)])
           split_train_test_model "heart.csv" (4 # 5) [0; 1; 2; 3] _ _
           eq_refl).
Defined.

Lemma load_data_keeps_other_columns_witness :
  let path := "../datasets/SAheart.data" in
  let read := read_csv_in (S := list nat) [(path, SAheart_head)] in
  let order := [2; 0; 3; 1] in
  (read path order = (Ok SAheart_head, order) /\
   ("famhist" ∈ labels SAheart_head) /\
   ("chd" ∈ labels SAheart_head) /\
   ("row.names" ∈ labels SAheart_head)) /\
  exists X y,
    load_data read split_train_test_model path (1 # 2) order =
      split_train_test_model X y (1 # 2) order /\
    labels X =
      filter (fun n => n ∉ ["chd"; "row.names"]) (labels SAheart_head) /\
    forall n, n <> "famhist" -> n <> "chd" -> n <> "row.names" ->
      column X n = column SAheart_head n.
Proof.
  cbn zeta.
  assert (Hfam : "famhist" ∈ labels SAheart_head)
    by (apply list_elem_of_In; simpl; auto 10).
  assert (Hchd : "chd" ∈ labels SAheart_head)
    by (apply list_elem_of_In; simpl; auto 10).
  assert (Hrow : "row.names" ∈ labels SAheart_head)
    by (apply list_elem_of_In; simpl; auto 10).
  split; [repeat split; assumption|].
  exact (load_data_keeps_other_columns
           (read_csv_in [("../datasets/SAheart.data", SAheart_head)])
           split_train_test_model "../datasets/SAheart.data" (1 # 2)
           [2; 0; 3; 1] SAheart_head [2; 0; 3; 1] eq_refl Hfam Hchd Hrow).
Defined.

(** ** The script as a whole *)

Section ScriptFacts.
Variable solver_fit : module_name -> Q -> closure -> list Q -> M world pyval.
Variable show_descent_path : module_name -> list pyval -> M world unit.

Local Abbreviation round := (fixed_rate_round solver_fit show_descent_path).
Local Abbreviation compare :=
  (compare_fixed_learning_rates solver_fit show_descent_path).

Lemma for_each_app {A} (xs ys : list A) body w :
  for_each (xs ++ ys) body w =
    match for_each xs body w with
    | (Ok _, w1) => for_each ys body w1
    | (Raise e, w1) => (Raise e, w1)
    end.
Proof.
  revert w. induction xs as [|x xs IH]; intros w; [reflexivity|].
  cbn [app for_each]. unfold bind.
  destruct (body x w) as [[[]|e] w1]; [apply IH | reflexivity].
Qed.

(** A round up to its two fits. *)
Lemma fixed_rate_round_fits init rate w :
  round init rate w =
    match solver_fit ModL1 rate (first_recorder w) init (with_recorders w)
    with
    | (Raise e, w1) => (Raise e, w1)
    | (Ok lowest1, w1) =>
        match solver_fit ModL2 rate (second_recorder w) init w1 with
        | (Raise e, w2) => (Raise e, w2)
        | (Ok lowest2, w2) =>
            (emit (Printed ModL1 rate lowest1);;
             emit (Printed ModL2 rate lowest2);;
             do series1 <- read_list (S (length (store w)));
             emit (Plotted ModL1 rate series1);;
             do series2 <- read_list (S (S (S (length (store w)))));
             emit (Plotted ModL2 rate series2);;
             if Qeq_bool rate (1 # 100) then
               (do path1 <- read_list (length (store w));
                show_descent_path ModL1 path1;;
                do path2 <- read_list (S (S (length (store w))));
                show_descent_path ModL2 path2)
             else ret tt)%py w2
        end
    end.
Proof.
  unfold fixed_rate_round, bind at 1, on_store at 1.
  rewrite get_recorder_spec. cbn [fst snd].
  unfold bind at 1, on_store at 1. cbn [store trace].
  rewrite get_recorder_spec. cbn [fst snd].
  rewrite length_app, <- app_assoc. cbn [length app].
  replace (length (store w) + 2) with (S (S (length (store w)))) by lia.
  unfold bind at 1. fold (with_recorders w). fold (first_recorder w).
  destruct (solver_fit ModL1 _ _ _ _) as [[lowest1|e] w1]; [|reflexivity].
  unfold bind at 1. fold (second_recorder w).
  destruct (solver_fit ModL2 _ _ _ _) as [[lowest2|e] w2]; reflexivity.
Qed.

(** X9. A fit that raises ends [compare_fixed_learning_rates] on the spot.
    When the rounds for the rates [done] went through and, at the next
    rate, the L1 fit raises, or the L1 fit returns and the L2 fit raises,
    the whole call raises that exception in the very world the failing fit
    left: nothing is printed or plotted for this rate, the remaining rates
    are not tried, and neither the legend nor the figure is drawn. *)
Theorem compare_stops_at_failed_fit init done rate rest w w1 e w2 :
  for_each done (round init) w = (Ok tt, w1) ->
  (solver_fit ModL1 rate (first_recorder w1) init (with_recorders w1)
     = (Raise e, w2) \/
   exists lowest1 w',
     solver_fit ModL1 rate (first_recorder w1) init (with_recorders w1)
       = (Ok lowest1, w') /\
     solver_fit ModL2 rate (second_recorder w1) init w' = (Raise e, w2)) ->
  compare init (done ++ rate :: rest) w = (Raise e, w2).
Proof.
  intros Hdone Hfit.
  unfold compare_fixed_learning_rates, bind at 1.
  rewrite for_each_app, Hdone. cbn [for_each]. unfold bind at 1.
  rewrite fixed_rate_round_fits.
  destruct Hfit as [H1|(lowest1 & w' & H1 & H2)].
  - now rewrite H1.
  - now rewrite H1, H2.
Qed.

(** X10. At a rate other than 0.01 whose two fits return, a round prints
    the L1 result and then the L2 result, plots the L1 and then the L2
    losses as the two lists stand after both fits, and that is all: no
    descent path is drawn and no object is changed. *)
Theorem fixed_rate_round_output init rate w lowest1 w1 lowest2 w2 :
  Qeq_bool rate (1 # 100) = false ->
  solver_fit ModL1 rate (first_recorder w) init (with_recorders w)
    = (Ok lowest1, w1) ->
  solver_fit ModL2 rate (second_recorder w) init w1 = (Ok lowest2, w2) ->
  round init rate w =
    (Ok tt,
     {| store := store w2;
        trace := trace w2 ++
          [Printed ModL1 rate lowest1;
           Printed ModL2 rate lowest2;
           Plotted ModL1 rate
             (default [] (store w2 !! cell_losses (first_recorder w)));
           Plotted ModL2 rate
             (default [] (store w2 !! cell_losses (second_recorder w)))] |}).
Proof.
  intros Hrate H1 H2. rewrite fixed_rate_round_fits, H1, H2, Hrate.
  unfold bind, emit, read_list, ret. cbn [store trace first_recorder
    second_recorder cell_losses].
  now rewrite <- !app_assoc.
Qed.
End ScriptFacts.

Section MainFacts.
Variable solver_fit : module_name -> Q -> closure -> list Q -> M world pyval.
Variable show_descent_path : module_name -> list pyval -> M world unit.
Variable read_csv : string -> M world DataFrame.
Variable split_train_test :
  DataFrame -> Series -> Q ->
  M world (DataFrame * Series * DataFrame * Series).

(** X11. [fit_logistic_regression] never returns.  It raises whatever
    [load_data] raises, and when [load_data] returns it raises
    [NotImplementedError] in the world the read and the split left. *)
Theorem fit_logistic_regression_never_returns (w : world) :
  exists e w',
    fit_logistic_regression read_csv split_train_test w = (Raise e, w') /\
    (forall data w1,
       load_data read_csv split_train_test
         "../datasets/SAheart.data" (8 # 10) w = (Ok data, w1) ->
       e = NotImplementedError /\ w' = w1) /\
    (forall e1 w1,
       load_data read_csv split_train_test
         "../datasets/SAheart.data" (8 # 10) w = (Raise e1, w1) ->
       e = e1 /\ w' = w1).
Proof.
  unfold fit_logistic_regression, bind at 1.
  destruct (load_data _ _ _ _ w) as [[data|e1] w1].
  - exists NotImplementedError, w1. split; [reflexivity|].
    split; [intros ? ? [= <- <-]; auto | intros ? ? [=]].
  - exists e1, w1. split; [reflexivity|].
    split; [intros ? ? [=] | intros ? ? [= <- <-]; auto].
Qed.

(** X12. The script never runs to its end and never gets to the data.
    [main] always raises: the exception of [compare_fixed_learning_rates]
    if that call raises, and otherwise [NotImplementedError] from
    [compare_exponential_decay_rates], in the world the comparison left.
    What [main] does is the same for every file reader and every split:
    [fit_logistic_regression], and with it [load_data], is never reached. *)
Theorem main_never_reaches_the_data (init : list Q) (w : world) :
  let seeded := {| store := store w; trace := trace w ++ [Seeded 0] |} in
  let etas := [1%Q; 1 # 10; 1 # 100; 1 # 1000] in
  exists e w',
    main solver_fit show_descent_path read_csv split_train_test init w
      = (Raise e, w') /\
    (forall w1,
       compare_fixed_learning_rates solver_fit show_descent_path init etas
         seeded = (Ok tt, w1) ->
       e = NotImplementedError /\ w' = w1) /\
    (forall e1 w1,
       compare_fixed_learning_rates solver_fit show_descent_path init etas
         seeded = (Raise e1, w1) ->
       e = e1 /\ w' = w1) /\
    (forall read_csv' split_train_test',
       main solver_fit show_descent_path read_csv' split_train_test' init w
         = (Raise e, w')).
Proof.
  cbn zeta. unfold main, bind at 1, emit at 1. unfold bind at 1.
  destruct (compare_fixed_learning_rates _ _ _ _ _) as [[[]|e1] w1] eqn:Hcmp.
  - exists NotImplementedError, w1. split; [reflexivity|].
    split; [intros ? [= <-]; auto|]. split; [intros ? ? [=]|].
    intros read' split'. unfold bind at 1, emit at 1. unfold bind at 1.
    now rewrite Hcmp.
  - exists e1, w1. split; [reflexivity|].
    split; [intros ? [=]|]. split; [intros ? ? [= <- <-]; auto|].
    intros read' split'. unfold bind at 1, emit at 1. unfold bind at 1.
    now rewrite Hcmp.
Qed.
End MainFacts.

Lemma compare_stops_at_failed_fit_witness :
  let w := {| store := []; trace := [] |} in
  let w2 := {| store := [[]; []; []; []]; trace := [] |} in
  (for_each [] (fixed_rate_round calling_solver idle_show [1%Q; 1%Q]) w
     = (Ok tt, w) /\
   (calling_solver ModL1 1%Q (first_recorder w) [1%Q; 1%Q] (with_recorders w)
      = (Raise AttributeError, w2) \/
    exists lowest1 w',
      calling_solver ModL1 1%Q (first_recorder w) [1%Q; 1%Q]
        (with_recorders w) = (Ok lowest1, w') /\
      calling_solver ModL2 1%Q (second_recorder w) [1%Q; 1%Q] w'
        = (Raise AttributeError, w2))) /\
  compare_fixed_learning_rates calling_solver idle_show [1%Q; 1%Q]
    ([] ++ 1%Q :: [1 # 10]) w = (Raise AttributeError, w2).
Proof.
  cbn zeta. split; [split; [reflexivity | left; reflexivity]|].
  exact (compare_stops_at_failed_fit calling_solver idle_show [1%Q; 1%Q]
           [] 1%Q [1 # 10] {| store := []; trace := [] |} _ _ _
           eq_refl (or_introl eq_refl)).
Defined.

Lemma fixed_rate_round_output_witness :
  let w := {| store := []; trace := [] |} in
  let w2 := {| store := [[]; []; []; []]; trace := [] |} in
  (Qeq_bool 1 (1 # 100) = false /\
   idle_solver ModL1 1%Q (first_recorder w) [1%Q; 1%Q] (with_recorders w)
     = (Ok PyNone, w2) /\
   idle_solver ModL2 1%Q (second_recorder w) [1%Q; 1%Q] w2
     = (Ok PyNone, w2)) /\
  fixed_rate_round idle_solver idle_show [1%Q; 1%Q] 1%Q w =
    (Ok tt,
     {| store := [[]; []; []; []];
        trace := [Printed ModL1 1%Q PyNone; Printed ModL2 1%Q PyNone;
                  Plotted ModL1 1%Q []; Plotted ModL2 1%Q []] |}).
Proof.
  cbn zeta. split; [repeat split|].
  exact (fixed_rate_round_output idle_solver idle_show [1%Q; 1%Q] 1%Q
           {| store := []; trace := [] |} PyNone _ PyNone _
           eq_refl eq_refl eq_refl).
Defined.
